(** * Shape inference for parsed JSON values: [analyze_json_structure.py]

    A shallow embedding of [get_type_name], [analyze_structure] and
    [print_structure], followed by the properties of the structure
    analyser and of its renderer. *)

From Stdlib Require Import ZArith Ascii String Floats.SpecFloat.
From stdpp Require Import gmap strings list pretty.

Set Warnings "-register-all,-clear-no-such-hyp".

Local Open Scope string_scope.
Local Open Scope list_scope.
Local Open Scope Z_scope.

(** ** Python values *)

(** The objects [analyze_structure] can be handed.  [json.load] produces the
    first seven shapes; [VOther cls] stands for an instance of any other
    class (one that derives from none of the built-in classes tested by
    [get_type_name]), [cls] being [type(obj).__name__].  A [dict] is kept as
    its items in insertion order, which is the order [obj.items()] iterates
    in; characters are [ascii]. *)
Inductive value : Type :=
  | VNone
  | VBool (b : bool)
  | VInt (n : Z)
  | VFloat (f : spec_float)
  | VStr (s : string)
  | VList (l : list value)
  | VDict (kvs : list (string * value))
  | VOther (cls : string).

(** The classes named in the [isinstance] tests. *)
Inductive pyclass : Type :=
  | Cbool | Cint | Cfloat | Cstr | Clist | Cdict | Cobject.

Definition pyclass_eqb (c1 c2 : pyclass) : bool :=
  match c1, c2 with
  | Cbool, Cbool | Cint, Cint | Cfloat, Cfloat | Cstr, Cstr
  | Clist, Clist | Cdict, Cdict | Cobject, Cobject => true
  | _, _ => false
  end.

(** [class_of v] is [type(v)] when it is one of the tested classes. *)
Definition class_of (v : value) : option pyclass :=
  match v with
  | VNone => None
  | VBool _ => Some Cbool
  | VInt _ => Some Cint
  | VFloat _ => Some Cfloat
  | VStr _ => Some Cstr
  | VList _ => Some Clist
  | VDict _ => Some Cdict
  | VOther _ => None
  end.

(** [bool] is a subclass of [int]; every class derives from [object]. *)
Definition issubclass (c1 c2 : pyclass) : bool :=
  match c1, c2 with
  | Cbool, Cint => true
  | _, Cobject => true
  | _, _ => pyclass_eqb c1 c2
  end.

Definition isinstance (v : value) (c : pyclass) : bool :=
  match class_of v with
  | Some c' => issubclass c' c
  | None => pyclass_eqb c Cobject
  end.

Definition is_None (v : value) : bool :=
  match v with VNone => true | _ => false end.

(** [type(obj).__name__] *)
Definition type_dunder_name (v : value) : string :=
  match v with
  | VNone => "NoneType"
  | VBool _ => "bool"
  | VInt _ => "int"
  | VFloat _ => "float"
  | VStr _ => "str"
  | VList _ => "list"
  | VDict _ => "dict"
  | VOther cls => cls
  end.

Definition get_type_name (obj : value) : string :=
  if is_None obj then "null"
  else if isinstance obj Cbool then "boolean"
  else if isinstance obj Cint then "integer"
  else if isinstance obj Cfloat then "number"
  else if isinstance obj Cstr then "string"
  else if isinstance obj Clist then "array"
  else if isinstance obj Cdict then "object"
  else type_dunder_name obj.

(** ** Descriptors *)

(** The dictionaries built by [analyze_structure]: the key ["type"] is always
    set, each of the other five keys may be absent.  ["items"] holds either
    one descriptor or a list of them; ["properties"] is a [dict] from keys to
    descriptors, kept in insertion order. *)
Inductive descriptor : Type :=
  Descriptor (type : string) (note : option string) (length : option nat)
             (items : option items_t) (sample : option string)
             (properties : option (list (string * descriptor)))
with items_t : Type :=
  | ItemsOne (d : descriptor)
  | ItemsMany (ds : list descriptor).

Definition d_type (d : descriptor) : string :=
  let 'Descriptor t _ _ _ _ _ := d in t.
Definition d_note (d : descriptor) : option string :=
  let 'Descriptor _ n _ _ _ _ := d in n.
Definition d_length (d : descriptor) : option nat :=
  let 'Descriptor _ _ l _ _ _ := d in l.
Definition d_items (d : descriptor) : option items_t :=
  let 'Descriptor _ _ _ i _ _ := d in i.
Definition d_sample (d : descriptor) : option string :=
  let 'Descriptor _ _ _ _ s _ := d in s.
Definition d_properties (d : descriptor) : option (list (string * descriptor)) :=
  let 'Descriptor _ _ _ _ _ p := d in p.

(** [{"type": t}] *)
Definition new_result (t : string) : descriptor :=
  Descriptor t None None None None None.

Definition set_length (n : nat) (d : descriptor) : descriptor :=
  let 'Descriptor t nt _ i s p := d in Descriptor t nt (Some n) i s p.
Definition set_items (i : items_t) (d : descriptor) : descriptor :=
  let 'Descriptor t nt l _ s p := d in Descriptor t nt l (Some i) s p.
Definition set_sample (s : string) (d : descriptor) : descriptor :=
  let 'Descriptor t nt l i _ p := d in Descriptor t nt l i (Some s) p.
Definition set_properties (p : list (string * descriptor)) (d : descriptor)
  : descriptor :=
  let 'Descriptor t nt l i s _ := d in Descriptor t nt l i s (Some p).

(** [{"type": "...", "note": "max depth reached"}] *)
Definition truncated : descriptor :=
  Descriptor "..." (Some "max depth reached") None None None None.

(** *** Insertion-ordered dictionaries *)

Section Dict.
Context {A : Type}.

(** [d.get(k)] *)
Fixpoint dict_get (k : string) (d : list (string * A)) : option A :=
  match d with
  | [] => None
  | (k', a) :: d' => if String.eqb k k' then Some a else dict_get k d'
  end.

(** [d[k] = a]: an existing key keeps its place, a new one goes last. *)
Fixpoint dict_set (k : string) (a : A) (d : list (string * A))
  : list (string * A) :=
  match d with
  | [] => [(k, a)]
  | (k', a') :: d' =>
      if String.eqb k k' then (k, a) :: d' else (k', a') :: dict_set k a d'
  end.

Definition dict_keys (d : list (string * A)) : list string := map fst d.
End Dict.

(** ** The analyser *)

(** [f"{path}[{i}]"] and [f"{path}.{key}"] *)
Definition item_path (path : string) (i : nat) : string :=
  path +:+ "[" +:+ pretty i +:+ "]".
Definition child_path (path key : string) : string :=
  path +:+ "." +:+ key.

(** [obj[:47] + "..."] when [len(obj) > 50], otherwise [obj]. *)
Definition sample_of (obj : string) : string :=
  if (50 <? String.length obj)%nat then String.substring 0 47 obj +:+ "..."
  else obj.

(** A string of 51 characters. *)
Definition fifty_one : string :=
  "The quick brown fox jumps over the lazy dog, twice.".

(** [s == t] on descriptors: field by field, lists in order, the
    ["properties"] dictionaries as [dict]s are compared by Python (same number
    of keys, and every key of the left one bound to an equal value in the
    right one). *)
Definition option_eqb {A} (eqb : A -> A -> bool) (o1 o2 : option A) : bool :=
  match o1, o2 with
  | Some a1, Some a2 => eqb a1 a2
  | None, None => true
  | _, _ => false
  end.

Fixpoint list_eqb {A} (eqb : A -> A -> bool) (l1 l2 : list A) : bool :=
  match l1, l2 with
  | [], [] => true
  | a1 :: l1', a2 :: l2' => eqb a1 a2 && list_eqb eqb l1' l2'
  | _, _ => false
  end.

Definition dict_eqb {A} (eqb : A -> A -> bool) (d1 d2 : list (string * A))
  : bool :=
  Nat.eqb (length d1) (length d2)
  && forallb (fun kv => match dict_get kv.1 d2 with
                        | Some a2 => eqb kv.2 a2
                        | None => false
                        end) d1.

Fixpoint descriptor_eqb (d1 d2 : descriptor) {struct d1} : bool :=
  let 'Descriptor t1 n1 l1 i1 s1 p1 := d1 in
  let 'Descriptor t2 n2 l2 i2 s2 p2 := d2 in
  String.eqb t1 t2
  && option_eqb String.eqb n1 n2
  && option_eqb Nat.eqb l1 l2
  && match i1, i2 with
     | Some (ItemsOne a1), Some (ItemsOne a2) => descriptor_eqb a1 a2
     | Some (ItemsMany x1), Some (ItemsMany x2) =>
         list_eqb descriptor_eqb x1 x2
     | None, None => true
     | _, _ => false
     end
  && option_eqb String.eqb s1 s2
  && match p1, p2 with
     | Some q1, Some q2 => dict_eqb descriptor_eqb q1 q2
     | None, None => true
     | _, _ => false
     end.

(** The comparisons of the ["items"] and ["properties"] entries inside
    [descriptor_eqb]. *)
Definition items_eqb (i1 i2 : option items_t) : bool :=
  match i1, i2 with
  | Some (ItemsOne a1), Some (ItemsOne a2) => descriptor_eqb a1 a2
  | Some (ItemsMany x1), Some (ItemsMany x2) => list_eqb descriptor_eqb x1 x2
  | None, None => true
  | _, _ => false
  end.

Definition properties_eqb (p1 p2 : option (list (string * descriptor))) : bool :=
  match p1, p2 with
  | Some q1, Some q2 => dict_eqb descriptor_eqb q1 q2
  | None, None => true
  | _, _ => false
  end.

(** [seen_paths] is one mutable [set] shared by the whole walk: every call
    takes the current set and returns the set it leaves behind. *)
Abbreviation paths := (gset string).

Section Loops.
(** The recursive call with [depth + 1], [max_depth] fixed:
    value, path and [seen_paths] in, descriptor and [seen_paths] out. *)
Variable rec : value -> string -> paths -> descriptor * paths.

(** [for i in range(sample_size): samples.append(analyze_structure(obj[i],
    f"{path}[{i}]", ...))], entered at index [i] with [n] rounds to go and
    [xs] the elements from index [i] on. *)
Fixpoint sample_loop (path : string) (xs : list value) (i n : nat)
    (seen : paths) : list descriptor * paths :=
  match n, xs with
  | S n', x :: xs' =>
      let '(item_analysis, seen1) := rec x (item_path path i) seen in
      let '(samples, seen2) := sample_loop path xs' (S i) n' seen1 in
      (item_analysis :: samples, seen2)
  | _, _ => ([], seen)
  end.

(** [for key, value in obj.items(): ...], with [props] the dictionary
    [result["properties"]] built so far. *)
Fixpoint property_loop (path : string) (kvs : list (string * value))
    (props : list (string * descriptor)) (seen : paths)
    : list (string * descriptor) * paths :=
  match kvs with
  | [] => (props, seen)
  | (key, v) :: kvs' =>
      let cp := child_path path key in
      if decide (cp ∈ seen) then property_loop path kvs' props seen
      else
        let '(d, seen1) := rec v cp ({[cp]} ∪ seen) in
        property_loop path kvs' (dict_set key d props) seen1
  end.
End Loops.

(** [all(s == samples[0] for s in samples)]; the loop has run at least once
    whenever this is evaluated. *)
Definition all_same (samples : list descriptor) : bool :=
  match samples with
  | [] => true
  | s0 :: _ => forallb (fun s => descriptor_eqb s s0) samples
  end.

(** [samples[0]].  It is only evaluated after the loop has run
    [sample_size >= 1] times, so the list is never empty there (on an empty
    list Python would raise [IndexError]; the first case below is then never
    reached, see [sample_loop_length]). *)
Definition samples_0 (samples : list descriptor) : descriptor :=
  match samples with
  | [] => truncated
  | s0 :: _ => s0
  end.

Fixpoint analyze_structure (obj : value) (path : string) (depth max_depth : Z)
    (seen_paths : paths) {struct obj} : descriptor * paths :=
  if depth >? max_depth then (truncated, seen_paths)
  else
    let result := new_result (get_type_name obj) in
    match obj with
    | VList l =>
        if (0 <? length l)%nat then
          let sample_size := Nat.min 3 (length l) in
          let '(samples, seen') :=
            sample_loop
              (fun x p s => analyze_structure x p (depth + 1) max_depth s)
              path l 0 sample_size seen_paths in
          if all_same samples then
            (set_items (ItemsOne (samples_0 samples))
               (set_length (length l) result), seen')
          else
            (set_items (ItemsMany samples)
               (set_length (length l) result), seen')
        else (set_length 0 result, seen_paths)
    | VDict kvs =>
        let '(props, seen') :=
          property_loop
            (fun v p s => analyze_structure v p (depth + 1) max_depth s)
            path kvs [] seen_paths in
        (set_properties props result, seen')
    | VStr s => (set_sample (sample_of s) result, seen_paths)
    | _ => (result, seen_paths)
    end.

(** A run started the way [main] starts it: [path = "root"], [depth = 0] and
    a fresh [seen_paths]. *)
Definition analyze (obj : value) (max_depth : Z) : descriptor :=
  (analyze_structure obj "root" 0 max_depth ∅).1.

(** *** The classification in the specification's words *)

(** The precedence list null, boolean, integer, floating-point number,
    string, array, object: the first test that holds names the kind, and
    a value that passes none is named after its raw type. *)
Definition precedence : list ((value -> bool) * string) :=
  [ (is_None, "null");
    (fun v => isinstance v Cbool, "boolean");
    (fun v => isinstance v Cint, "integer");
    (fun v => isinstance v Cfloat, "number");
    (fun v => isinstance v Cstr, "string");
    (fun v => isinstance v Clist, "array");
    (fun v => isinstance v Cdict, "object") ].

Definition classify (v : value) : string :=
  match List.find (fun rule => rule.1 v) precedence with
  | Some rule => rule.2
  | None => type_dunder_name v
  end.

(** *** The trace of a run *)

(** What one run does, in the order it does it, beyond the descriptor it
    returns: the calls [analyze_structure] makes to itself and the keys it
    passes over.  This is the bookkeeping the properties about "analysed at
    most once" and "never suppressed" speak of; it follows the control flow
    of [analyze_structure] branch for branch and takes the successive
    [seen_paths] from [analyze_structure] itself. *)
Inductive event : Type :=
  | Item (path : string)   (** recursive call on [obj[i]] (line 41) *)
  | Key (path : string)    (** [seen_paths.add] and recursive call (59-60) *)
  | Skip (path : string).  (** [child_path] found in [seen_paths] *)

Definition event_path (e : event) : string :=
  match e with Item p | Key p | Skip p => p end.
Definition is_item (e : event) : bool :=
  match e with Item _ => true | _ => false end.
Definition is_key (e : event) : bool :=
  match e with Key _ => true | _ => false end.
Definition is_skip (e : event) : bool :=
  match e with Skip _ => true | _ => false end.

Section TraceLoops.
Variable rec : value -> string -> paths -> descriptor * paths.
Variable rec_trace : value -> string -> paths -> list event.

Fixpoint sample_trace (path : string) (xs : list value) (i n : nat)
    (seen : paths) : list event :=
  match n, xs with
  | S n', x :: xs' =>
      let ip := item_path path i in
      Item ip :: rec_trace x ip seen
        ++ sample_trace path xs' (S i) n' (rec x ip seen).2
  | _, _ => []
  end.

Fixpoint property_trace (path : string) (kvs : list (string * value))
    (seen : paths) : list event :=
  match kvs with
  | [] => []
  | (key, v) :: kvs' =>
      let cp := child_path path key in
      if decide (cp ∈ seen) then Skip cp :: property_trace path kvs' seen
      else
        Key cp :: rec_trace v cp ({[cp]} ∪ seen)
          ++ property_trace path kvs' (rec v cp ({[cp]} ∪ seen)).2
  end.
End TraceLoops.

Fixpoint trace (obj : value) (path : string) (depth max_depth : Z)
    (seen_paths : paths) {struct obj} : list event :=
  if depth >? max_depth then []
  else
    match obj with
    | VList l =>
        if (0 <? length l)%nat then
          sample_trace
            (fun x p s => analyze_structure x p (depth + 1) max_depth s)
            (fun x p s => trace x p (depth + 1) max_depth s)
            path l 0 (Nat.min 3 (length l)) seen_paths
        else []
    | VDict kvs =>
        property_trace
          (fun v p s => analyze_structure v p (depth + 1) max_depth s)
          (fun v p s => trace v p (depth + 1) max_depth s)
          path kvs seen_paths
    | _ => []
    end.

(** The paths [analyze_structure] is called on during a run: the one the
    run starts at, then one per [Item] and [Key] event. *)
Definition called (tr : list event) : list string :=
  map event_path (List.filter (fun e => negb (is_skip e)) tr).

Definition calls (obj : value) (path : string) (depth max_depth : Z)
    (seen_paths : paths) : list string :=
  path :: called (trace obj path depth max_depth seen_paths).

Definition key_calls (tr : list event) : list string :=
  map event_path (List.filter is_key tr).
Definition skips (tr : list event) : list string :=
  map event_path (List.filter is_skip tr).

(** *** Shapes of values and of descriptors *)

(** Every node of a descriptor, the descriptor itself first. *)
Fixpoint nodes (d : descriptor) : list descriptor :=
  let 'Descriptor _ _ _ i _ p := d in
  d :: match i with
       | Some (ItemsOne a) => nodes a
       | Some (ItemsMany ds) => flat_map nodes ds
       | None => []
       end
    ++ match p with
       | Some q => flat_map (fun kv => nodes kv.2) q
       | None => []
       end.

(** A parsed JSON document: no object of a foreign class anywhere. *)
Fixpoint is_json (v : value) : bool :=
  match v with
  | VList l => forallb is_json l
  | VDict kvs => forallb (fun kv => is_json kv.2) kvs
  | VOther _ => false
  | _ => true
  end.

(** [all_objects q v]: the keys of every object in [v], in order, pass [q]. *)
Fixpoint all_objects (q : list string -> bool) (v : value) : bool :=
  match v with
  | VList l => forallb (all_objects q) l
  | VDict kvs => q (map fst kvs) && forallb (fun kv => all_objects q kv.2) kvs
  | _ => true
  end.

Definition unique_object_keys (v : value) : bool :=
  all_objects (fun ks => bool_decide (NoDup ks)) v.

(** A conforming JSON value: string keys, unique within each object. *)
Definition conforming (v : value) : bool :=
  is_json v && unique_object_keys v.

Fixpoint string_forallb (f : ascii -> bool) (s : string) : bool :=
  match s with
  | EmptyString => true
  | String a s' => f a && string_forallb f s'
  end.

(** The two characters that begin a path segment. *)
Definition is_delimiter (a : ascii) : bool :=
  (Ascii.eqb a "." || Ascii.eqb a "[")%char.

(** A key with no ["."] and no ["["] in it. *)
Definition plain_key (k : string) : bool :=
  string_forallb (fun a => negb (is_delimiter a)) k.

Definition plain_keys (v : value) : bool :=
  all_objects (forallb plain_key) v.

(** ** The renderer *)

(** [print] appends to standard output; [print_structure] is modelled by the
    text it writes. *)
Definition nl : string := String (ascii_of_nat 10) "".
Definition dquote : string := String (ascii_of_nat 34) "".

(** [s * n] for a Python [int] [n]: empty when [n <= 0]. *)
Definition str_mul (s : string) (n : Z) : string :=
  Nat.iter (Z.to_nat n) (String.append s) "".

(** [f" (e.g., \"{structure['sample']}\")"] when ["sample" in structure]. *)
Definition sample_suffix (structure : descriptor) : string :=
  match d_sample structure with
  | Some s => " (e.g., " +:+ dquote +:+ s +:+ dquote +:+ ")"
  | None => ""
  end.

(** [value["type"] in ["object", "array"]] *)
Definition is_container (d : descriptor) : bool :=
  String.eqb (d_type d) "object" || String.eqb (d_type d) "array".

Section PrintLoops.
(** The recursive call at [indent + 2]. *)
Variable rec : descriptor -> string.
Variable ind : string.

(** [for key, value in structure["properties"].items(): ...] *)
Fixpoint print_properties (props : list (string * descriptor)) : string :=
  match props with
  | [] => ""
  | (key, value) :: props' =>
      (ind +:+ "  " +:+ key +:+ ":")
      +:+ (if is_container value then nl +:+ rec value
           else (" " +:+ d_type value) +:+ sample_suffix value +:+ nl)
      +:+ print_properties props'
  end.

(** [for i, item in enumerate(structure["items"]): ...] from index [i]. *)
Fixpoint print_items (i : nat) (its : list descriptor) : string :=
  match its with
  | [] => ""
  | item :: its' =>
      (ind +:+ "  [" +:+ pretty i +:+ "]:" +:+ nl)
      +:+ rec item
      +:+ print_items (S i) its'
  end.
End PrintLoops.

Fixpoint print_structure (structure : descriptor) (indent : Z) {struct structure}
    : string :=
  let ind := str_mul "  " indent in
  let 'Descriptor type _ length items _ properties := structure in
  if String.eqb type "object" then
    (ind +:+ "Object {" +:+ nl)
    +:+ match properties with
        | Some props =>
            print_properties (fun v => print_structure v (indent + 2)) ind props
        | None => ""
        end
    +:+ (ind +:+ "}" +:+ nl)
  else if String.eqb type "array" then
    (ind +:+ "Array[" +:+ pretty (default 0%nat length) +:+ "] {" +:+ nl)
    +:+ match items with
        | Some (ItemsMany its) =>
            print_items (fun v => print_structure v (indent + 2)) ind 0 its
        | Some (ItemsOne it) =>
            (ind +:+ "  items:" +:+ nl) +:+ print_structure it (indent + 2)
        | None => ""
        end
    +:+ (ind +:+ "}" +:+ nl)
  else
    (ind +:+ type) +:+ sample_suffix structure.

(** *** Well-formed descriptors *)

(** The keys of a ["properties"] dictionary are pairwise distinct, as those
    of any [dict] are. *)
Definition unique_keys (d : descriptor) : Prop :=
  match d_properties d with
  | Some q => NoDup (dict_keys q)
  | None => True
  end.

Definition wf_descriptor (d : descriptor) : Prop :=
  Forall unique_keys (nodes d).

(** All sampled descriptors are pairwise identical under [==]. *)
Definition pairwise_identical (samples : list descriptor) : Prop :=
  forall a b, a ∈ samples -> b ∈ samples -> descriptor_eqb a b = true.

(** *** Which optional entries a descriptor carries *)

Definition has {A} (o : option A) : bool :=
  match o with Some _ => true | None => false end.

(** How many of the three groups [sample], [length] with [items], and
    [properties] have an entry in [d]. *)
Definition populated_groups (d : descriptor) : nat :=
  ((if has (d_sample d) then 1 else 0)
   + (if has (d_length d) || has (d_items d) then 1 else 0)
   + (if has (d_properties d) then 1 else 0))%nat.

(** The entries of [d] are those its ["type"] calls for: ["sample"] exactly
    on a string, ["length"] exactly on an array and ["items"] exactly when
    that length is positive, ["properties"] exactly on an object, and
    ["note"], with its fixed text, exactly on the truncation sentinel. *)
Definition fields_by_kind (d : descriptor) : bool :=
  Bool.eqb (has (d_sample d)) (String.eqb (d_type d) "string")
  && Bool.eqb (has (d_length d)) (String.eqb (d_type d) "array")
  && Bool.eqb (has (d_items d))
              (match d_length d with Some (S _) => true | _ => false end)
  && Bool.eqb (has (d_properties d)) (String.eqb (d_type d) "object")
  && option_eqb String.eqb (d_note d)
       (if String.eqb (d_type d) "..." then Some "max depth reached"
        else None).

(** The claim of C5 as the specification words it: every node has exactly
    one of the three groups, and no other optional entry. *)
Definition exactly_one_group (v : value) (max_depth : Z) : Prop :=
  forall n, n ∈ nodes (analyze v max_depth) ->
            populated_groups n = 1%nat /\ d_note n = None.

(** *** Accounting for [seen_paths] *)

(** A stretch of a run that starts with [seen] and ends with [seen']: the
    paths added are exactly those of its [Key] events, none of which was in
    [seen] and no two of which are the same, and every path passed over is
    in the set. *)
Definition accounted (seen seen' : paths) (tr : list event) : Prop :=
  seen' = seen ∪ list_to_set (key_calls tr)
  /\ NoDup (key_calls tr)
  /\ (forall q, q ∈ key_calls tr -> q ∉ seen)
  /\ (forall q, q ∈ skips tr -> q ∈ seen').

(** The claim of C6 as the specification words it: no path string is the
    argument of two calls in one run. *)
Definition every_path_analyzed_once (v : value) (max_depth : Z) : Prop :=
  NoDup (calls v "root" 0 max_depth ∅).

(** The event [e], met while analysing at [path] with trace [tr], is on the
    child path [parent.key] of a path [parent] the run has analysed. *)
Definition on_child_path (path : string) (tr : list event) (e : event) : Prop :=
  exists parent key,
    event_path e = child_path parent key
    /\ (parent = path \/ parent ∈ called tr).

(** *** Paths that extend a path *)

(** [q] is [p] followed by a segment: a ["."] or a ["["] and then anything. *)
Definition delimited_extension (p q : string) : Prop :=
  exists a rest, is_delimiter a = true /\ q = p +:+ String a rest.

(** [q] is [p] or a delimited extension of it. *)
Definition below (p q : string) : Prop := q = p \/ delimited_extension p q.

(** No path in [seen] extends [path]: the state in which a run is started
    on [path], a fresh [seen_paths] in particular. *)
Definition fresh_for (path : string) (seen : paths) : Prop :=
  forall q, q ∈ seen -> ~ delimited_extension path q.

(** A call that, started on a path with no extension of it in
    [seen_paths], passes over no key and adds only extensions of that
    path. *)
Definition clean_run (rec : value -> string -> paths -> descriptor * paths)
    (rec_trace : value -> string -> paths -> list event) (x : value) : Prop :=
  forall p s, fresh_for p s ->
    skips (rec_trace x p s) = []
    /\ forall q, q ∈ (rec x p s).2 -> q ∈ s \/ delimited_extension p q.

(** The suppression branch is not taken during the run, and an object
    analysed within the depth limit gets an entry for every one of its
    keys, in order. *)
Definition never_suppressed (v : value) (path : string) (depth max_depth : Z)
    (seen : paths) : Prop :=
  skips (trace v path depth max_depth seen) = []
  /\ forall kvs, v = VDict kvs -> depth <= max_depth ->
       exists props,
         d_properties (analyze_structure v path depth max_depth seen).1
         = Some props
         /\ dict_keys props = dict_keys kvs.

(** *** The rendering in the specification's words *)

(** One property of an object printed at [indent]: the key, then either a
    line break and the child rendered at [indent + 2] (objects and arrays),
    or the child's kind on the same line, with its sample if it has one. *)
Definition rendered_property (indent : Z) (kv : string * descriptor) : string :=
  let ind := str_mul "  " indent in
  if String.eqb (d_type kv.2) "object" || String.eqb (d_type kv.2) "array"
  then ind +:+ "  " +:+ kv.1 +:+ ":" +:+ nl +:+ print_structure kv.2 (indent + 2)
  else ind +:+ "  " +:+ kv.1 +:+ ": " +:+ d_type kv.2
       +:+ sample_suffix kv.2 +:+ nl.

Fixpoint string_concat (ss : list string) : string :=
  match ss with
  | [] => ""
  | s :: ss' => s +:+ string_concat ss'
  end.

(** [{"a": 1, "b": [1, 2, 3], "c": "hi"}] and what is printed for it. *)
Definition sample_document : value :=
  VDict [("a", VInt 1); ("b", VList [VInt 1; VInt 2; VInt 3]);
         ("c", VStr "hi")].

Definition sample_rendering : string :=
  "Object {" +:+ nl
  +:+ "  a: integer" +:+ nl
  +:+ "  b:" +:+ nl
  +:+ "    Array[3] {" +:+ nl
  +:+ "      items:" +:+ nl
  +:+ "        integer    }" +:+ nl
  +:+ "  c: string (e.g., " +:+ dquote +:+ "hi" +:+ dquote +:+ ")" +:+ nl
  +:+ "}" +:+ nl.

(** An event of the loop over the samples [lo .. hi-1] of an array at
    [path]: the call on an element, or something met under that element. *)
Definition under_item (path : string) (lo hi : nat) (e : event) : Prop :=
  exists j, (lo <= j < hi)%nat
            /\ (e = Item (item_path path j)
                \/ delimited_extension (item_path path j) (event_path e)).

(** ** Further notions: nesting, budgets, the unsuppressed analysis *)

(** How many levels of descriptors lie below the root of [d]. *)
Fixpoint nesting (d : descriptor) : nat :=
  let 'Descriptor _ _ _ i _ p := d in
  Nat.max
    match i with
    | Some (ItemsOne a) => S (nesting a)
    | Some (ItemsMany ds) => list_max (map (fun a => S (nesting a)) ds)
    | None => 0%nat
    end
    match p with
    | Some q => list_max (map (fun kv => S (nesting kv.2)) q)
    | None => 0%nat
    end.

(** The number of levels of a value: 1 for a scalar and for an empty
    container, one more than its deepest member otherwise. *)
Fixpoint levels (v : value) : nat :=
  match v with
  | VList l => S (list_max (map levels l))
  | VDict kvs => S (list_max (map (fun kv => levels kv.2) kvs))
  | _ => 1%nat
  end.

(** [d] with the ["note"] entry removed at every node. *)
Fixpoint strip_note (d : descriptor) : descriptor :=
  let 'Descriptor t _ l i s p := d in
  Descriptor t None l
    match i with
    | Some (ItemsOne a) => Some (ItemsOne (strip_note a))
    | Some (ItemsMany ds) => Some (ItemsMany (map strip_note ds))
    | None => None
    end
    s
    match p with
    | Some q => Some (map (fun kv => (kv.1, strip_note kv.2)) q)
    | None => None
    end.

(** One entry of the heterogeneous form of ["items"], printed at
    [indent]: the index line, then the entry at [indent + 2]. *)
Definition rendered_item (indent : Z) (i : nat) (item : descriptor) : string :=
  str_mul "  " indent +:+ "  [" +:+ pretty i +:+ "]:" +:+ nl
  +:+ print_structure item (indent + 2).

(** *** The analysis without duplicate-path suppression *)

(** [analyze_structure] with the [seen_paths] test and bookkeeping taken
    out; a yardstick for the runs in which the test never succeeds. *)
Section UnsuppressedLoops.
Variable rec : value -> descriptor.

Fixpoint plain_sample_loop (xs : list value) (n : nat) : list descriptor :=
  match n, xs with
  | S n', x :: xs' => rec x :: plain_sample_loop xs' n'
  | _, _ => []
  end.

Fixpoint plain_property_loop (kvs : list (string * value))
    (props : list (string * descriptor)) : list (string * descriptor) :=
  match kvs with
  | [] => props
  | (key, v) :: kvs' => plain_property_loop kvs' (dict_set key (rec v) props)
  end.
End UnsuppressedLoops.

Fixpoint analyze_unsuppressed (obj : value) (depth max_depth : Z)
    {struct obj} : descriptor :=
  if depth >? max_depth then truncated
  else
    let result := new_result (get_type_name obj) in
    match obj with
    | VList l =>
        if (0 <? length l)%nat then
          let samples :=
            plain_sample_loop
              (fun x => analyze_unsuppressed x (depth + 1) max_depth)
              l (Nat.min 3 (length l)) in
          if all_same samples then
            set_items (ItemsOne (samples_0 samples))
              (set_length (length l) result)
          else
            set_items (ItemsMany samples) (set_length (length l) result)
        else set_length 0 result
    | VDict kvs =>
        set_properties
          (plain_property_loop
             (fun v => analyze_unsuppressed v (depth + 1) max_depth) kvs [])
          result
    | VStr s => set_sample (sample_of s) result
    | _ => result
    end.

(** ** The command-line report *)

(** [main] reads one fixed file and prints a report.  Opening and parsing
    the file are outside this development; [main] is modelled by the text
    it writes for each way the first two statements of its [try] block can
    end. *)
Definition json_file : string := "data/2025-09-04_22-03-01.json".

Inductive load_outcome : Type :=
  | Loaded (data : value)            (** [json.load] returned [data] *)
  | JSONDecodeError (e : string)     (** with [str(e)] *)
  | FileNotFoundError
  | OtherException (e : string).     (** any other [Exception], [str(e)] *)

(** [len(obj)] of a list or of a dict's keys, [isinstance(data, list) and
    len(data) > 0], [data[0]]. *)
Definition first_item (data : value) : option value :=
  match data with
  | VList (x :: _) => Some x
  | _ => None
  end.

(** Lines 111-112, printed before the [try]. *)
Definition banner : string :=
  ("Analyzing JSON structure of: " +:+ json_file +:+ nl)
  +:+ (str_mul "=" 60 +:+ nl).

(** Lines 119-130. *)
Definition report (data : value) : string :=
  ("Root type: " +:+ get_type_name data +:+ nl)
  +:+ match data with
      | VList l => "Total items: " +:+ pretty (length l) +:+ nl
      | VDict kvs =>
          "Total top-level keys: " +:+ pretty (length (dict_keys kvs)) +:+ nl
      | _ => ""
      end
  +:+ (nl +:+ "Structure Analysis:" +:+ nl)
  +:+ (str_mul "-" 40 +:+ nl)
  +:+ print_structure (analyze data 5) 0.

(** Lines 133-138. *)
Definition detailed_view (data : value) : string :=
  match first_item data with
  | Some x =>
      (nl +:+ str_mul "=" 60 +:+ nl)
      +:+ ("Detailed view of first item:" +:+ nl)
      +:+ (str_mul "-" 40 +:+ nl)
      +:+ print_structure (analyze x 10) 0
  | None => ""
  end.

Definition main (outcome : load_outcome) : string :=
  banner
  +:+ match outcome with
      | Loaded data => report data +:+ detailed_view data
      | JSONDecodeError e => "Error: Invalid JSON format - " +:+ e +:+ nl
      | FileNotFoundError =>
          "Error: File '" +:+ json_file +:+ "' not found" +:+ nl
      | OtherException e => "Error: " +:+ e +:+ nl
      end.
(** ** Classification (C1) *)

#[local] Arguments Nat.min : simpl never.

Lemma get_type_name_classify (v : value) : get_type_name v = classify v.
Proof. by destruct v. Qed.

Lemma analyze_structure_truncated obj path depth max_depth seen :
  max_depth < depth ->
  analyze_structure obj path depth max_depth seen = (truncated, seen).
Proof.
  intros Hlt. apply Z.gtb_lt in Hlt.
  destruct obj; simpl; by rewrite Hlt.
Qed.

Lemma gtb_false_le (a b : Z) : a <= b -> (a >? b) = false.
Proof. intros H. rewrite Z.gtb_ltb. by apply Z.ltb_ge. Qed.

Lemma analyze_structure_type obj path depth max_depth seen :
  depth <= max_depth ->
  d_type (analyze_structure obj path depth max_depth seen).1
  = get_type_name obj.
Proof.
  intros Hle. apply gtb_false_le in Hle.
  destruct obj; simpl; rewrite Hle; try done.
  - destruct (0 <? length l)%nat; [|done].
    destruct (sample_loop _ _ _ _ _ _) as [samples seen'].
    by destruct (all_same samples).
  - by destruct (property_loop _ _ _ _ _) as [props seen'].
Qed.

(** C1: within the depth limit the descriptor's ["type"] is the
    classification of the value, the classification being the first match in
    the order null, boolean, integer, number, string, array, object and the
    raw type name otherwise; a boolean, although an instance of [int], is
    named boolean, and an integer is named integer and not number. *)
Theorem C1_kind_is_classification obj path depth max_depth seen :
  depth <= max_depth ->
  d_type (analyze_structure obj path depth max_depth seen).1 = classify obj
  /\ classify obj = get_type_name obj
  /\ get_type_name obj =
       match obj with
       | VNone => "null"
       | VBool _ => "boolean"
       | VInt _ => "integer"
       | VFloat _ => "number"
       | VStr _ => "string"
       | VList _ => "array"
       | VDict _ => "object"
       | VOther cls => cls
       end
  /\ (forall b, isinstance (VBool b) Cint = true
                /\ get_type_name (VBool b) = "boolean")
  /\ (forall n, get_type_name (VInt n) = "integer"
                /\ get_type_name (VInt n) <> "number").
Proof.
  intros Hle. split; [|split; [|split; [|split]]].
  - rewrite <- get_type_name_classify. by apply analyze_structure_type.
  - symmetry. apply get_type_name_classify.
  - by destruct obj.
  - done.
  - done.
Qed.

Lemma C1_kind_is_classification_witness :
  d_type (analyze_structure (VBool true) "root" 0 5 ∅).1
  = classify (VBool true)
  /\ classify (VBool true) = "boolean".
Proof.
  destruct (C1_kind_is_classification (VBool true) "root" 0 5 ∅)
    as (H1 & H2 & H3 & _); [lia|].
  split; [exact H1|]. rewrite H2. exact H3.
Defined.

(** ** The depth limit (C3) *)

Lemma analyze_structure_note obj path depth max_depth seen :
  depth <= max_depth ->
  d_note (analyze_structure obj path depth max_depth seen).1 = None.
Proof.
  intros Hle. apply gtb_false_le in Hle.
  destruct obj; simpl; rewrite Hle; try done.
  - destruct (0 <? length l)%nat; [|done].
    destruct (sample_loop _ _ _ _ _ _) as [samples seen'].
    by destruct (all_same samples).
  - by destruct (property_loop _ _ _ _ _) as [props seen'].
Qed.

(** C3: a call returns the truncation sentinel exactly when
    [depth > max_depth] (whatever the sign of [max_depth], so for the
    non-negative ones too); for a value whose class is not itself named
    ["..."] this is the same as the descriptor's ["type"] being ["..."];
    and beyond the limit the answer and [seen_paths] are the same for every
    value, so the value is not looked at. *)
Theorem C3_truncated_iff_depth_exceeds obj path depth max_depth seen :
  ((analyze_structure obj path depth max_depth seen).1 = truncated
   <-> max_depth < depth)
  /\ (get_type_name obj <> "..." ->
      (d_type (analyze_structure obj path depth max_depth seen).1 = "..."
       <-> max_depth < depth))
  /\ (max_depth < depth ->
      forall obj', analyze_structure obj' path depth max_depth seen
                   = (truncated, seen)).
Proof.
  split; [|split].
  - split.
    + intros Heq. destruct (Z_lt_le_dec max_depth depth) as [|Hle]; [done|].
      apply (analyze_structure_note obj path _ _ seen) in Hle.
      by rewrite Heq in Hle.
    + intros Hlt. by rewrite analyze_structure_truncated.
  - intros Hname. split.
    + intros Heq. destruct (Z_lt_le_dec max_depth depth) as [|Hle]; [done|].
      apply (analyze_structure_type obj path _ _ seen) in Hle. congruence.
    + intros Hlt. by rewrite analyze_structure_truncated.
  - intros Hlt obj'. by apply analyze_structure_truncated.
Qed.

Lemma C3_truncated_iff_depth_exceeds_witness :
  (d_type (analyze_structure (VInt 7) "root" 6 5 ∅).1 = "..." <-> 5 < 6)
  /\ analyze_structure (VStr "x") "root" 6 5 ∅ = (truncated, ∅).
Proof.
  destruct (C3_truncated_iff_depth_exceeds (VInt 7) "root" 6 5 ∅)
    as (_ & H2 & H3).
  split; [apply H2; discriminate | apply H3; lia].
Defined.

(** ** String samples (C4) *)

Lemma string_length_app (s1 s2 : string) :
  String.length (s1 +:+ s2) = (String.length s1 + String.length s2)%nat.
Proof. induction s1 as [|a s1 IH]; simpl; [done|]. by rewrite IH. Qed.

Lemma substring_0_length (n : nat) (s : string) :
  (n <= String.length s)%nat -> String.length (substring 0 n s) = n.
Proof.
  revert s. induction n as [|n IH]; intros [|a s] Hn; simpl in *; try done.
  - lia.
  - rewrite IH; [done | lia].
Qed.

Lemma substring_0_prefix (n : nat) (s : string) :
  exists rest, s = substring 0 n s +:+ rest.
Proof.
  revert s. induction n as [|n IH]; intros [|a s]; simpl.
  - by exists "".
  - by exists (String a s).
  - by exists "".
  - destruct (IH s) as [rest Hrest]. exists rest.
    change (String a s = String a (substring 0 n s +:+ rest)). by f_equal.
Qed.

Lemma analyze_structure_str s path depth max_depth seen :
  depth <= max_depth ->
  analyze_structure (VStr s) path depth max_depth seen
  = (set_sample (sample_of s) (new_result "string"), seen).
Proof. intros Hle. simpl. by rewrite (gtb_false_le _ _ Hle). Qed.

(** C4: within the depth limit the ["sample"] of a string of at most 50
    characters is the string itself; that of a longer string is its first
    47 characters followed by the three characters ["..."], 50 characters
    in all (so for a string of 51 characters too). *)
Theorem C4_string_sample s path depth max_depth seen :
  depth <= max_depth ->
  let d := (analyze_structure (VStr s) path depth max_depth seen).1 in
  ((String.length s <= 50)%nat -> d_sample d = Some s)
  /\ ((50 < String.length s)%nat ->
      exists front rest,
        d_sample d = Some (front +:+ "...")
        /\ s = front +:+ rest
        /\ String.length front = 47%nat
        /\ String.length (front +:+ "...") = 50%nat).
Proof.
  intros Hle d. subst d. rewrite analyze_structure_str by done. simpl.
  unfold sample_of. split.
  - intros Hs. apply Nat.ltb_ge in Hs. by rewrite Hs.
  - intros Hs. pose proof Hs as Hs'. apply Nat.ltb_lt in Hs'. rewrite Hs'.
    destruct (substring_0_prefix 47 s) as [rest Hrest].
    exists (substring 0 47 s), rest.
    assert (String.length (substring 0 47 s) = 47%nat) as Hlen
      by (apply substring_0_length; lia).
    split; [done|]. split; [done|]. split; [done|].
    rewrite string_length_app, Hlen. done.
Qed.

Lemma C4_string_sample_witness :
  d_sample (analyze_structure (VStr "hi") "root" 0 5 ∅).1 = Some "hi"
  /\ exists front rest,
       d_sample (analyze_structure (VStr fifty_one) "root" 0 5 ∅).1
       = Some (front +:+ "...")
       /\ fifty_one = front +:+ rest
       /\ String.length front = 47%nat
       /\ String.length (front +:+ "...") = 50%nat.
Proof.
  split.
  - apply (C4_string_sample "hi" "root" 0 5 ∅); [lia | simpl; lia].
  - apply (C4_string_sample fifty_one "root" 0 5 ∅); [lia | simpl; lia].
Defined.

(** ** Induction over nested values and descriptors *)

Section ValueInd.
Variable P : value -> Prop.
Hypothesis HNone : P VNone.
Hypothesis HBool : forall b, P (VBool b).
Hypothesis HInt : forall n, P (VInt n).
Hypothesis HFloat : forall f, P (VFloat f).
Hypothesis HStr : forall s, P (VStr s).
Hypothesis HList : forall l, Forall P l -> P (VList l).
Hypothesis HDict : forall kvs, Forall (fun kv => P kv.2) kvs -> P (VDict kvs).
Hypothesis HOther : forall cls, P (VOther cls).

Lemma value_nested_ind : forall v, P v.
Proof.
  fix IH 1. intros [|b|n|f|s|l|kvs|cls];
    [apply HNone | apply HBool | apply HInt | apply HFloat | apply HStr
    | | | apply HOther].
  - apply HList. induction l as [|x l IHl]; constructor; [apply IH | exact IHl].
  - apply HDict. induction kvs as [|[k x] kvs IHkvs]; constructor;
      [apply IH | exact IHkvs].
Qed.
End ValueInd.

Section DescriptorInd.
Variable P : descriptor -> Prop.
Hypothesis HDesc : forall t n l i s p,
  match i with
  | Some (ItemsOne a) => P a
  | Some (ItemsMany ds) => Forall P ds
  | None => True
  end ->
  match p with
  | Some q => Forall (fun kv => P kv.2) q
  | None => True
  end ->
  P (Descriptor t n l i s p).

Lemma descriptor_nested_ind : forall d, P d.
Proof.
  fix IH 1. intros [t n l i s p]. apply HDesc.
  - destruct i as [[a|ds]|]; [apply IH | | exact I].
    induction ds as [|x ds IHds]; constructor; [apply IH | exact IHds].
  - destruct p as [q|]; [|exact I].
    induction q as [|[k x] q IHq]; constructor; [apply IH | exact IHq].
Qed.
End DescriptorInd.

(** ** Unfolding [analyze_structure] *)

Lemma analyze_structure_unfold obj path depth max_depth seen :
  depth <= max_depth ->
  analyze_structure obj path depth max_depth seen =
  let result := new_result (get_type_name obj) in
  match obj with
  | VList l =>
      if (0 <? length l)%nat then
        let '(samples, seen') :=
          sample_loop
            (fun x p s => analyze_structure x p (depth + 1) max_depth s)
            path l 0 (Nat.min 3 (length l)) seen in
        if all_same samples then
          (set_items (ItemsOne (samples_0 samples))
             (set_length (length l) result), seen')
        else
          (set_items (ItemsMany samples)
             (set_length (length l) result), seen')
      else (set_length 0 result, seen)
  | VDict kvs =>
      let '(props, seen') :=
        property_loop
          (fun v p s => analyze_structure v p (depth + 1) max_depth s)
          path kvs [] seen in
      (set_properties props result, seen')
  | VStr s => (set_sample (sample_of s) result, seen)
  | _ => (result, seen)
  end.
Proof.
  intros Hle. apply gtb_false_le in Hle.
  destruct obj; simpl; by rewrite Hle.
Qed.

Lemma trace_unfold obj path depth max_depth seen :
  depth <= max_depth ->
  trace obj path depth max_depth seen =
  match obj with
  | VList l =>
      if (0 <? length l)%nat then
        sample_trace
          (fun x p s => analyze_structure x p (depth + 1) max_depth s)
          (fun x p s => trace x p (depth + 1) max_depth s)
          path l 0 (Nat.min 3 (length l)) seen
      else []
  | VDict kvs =>
      property_trace
        (fun v p s => analyze_structure v p (depth + 1) max_depth s)
        (fun v p s => trace v p (depth + 1) max_depth s)
        path kvs seen
  | _ => []
  end.
Proof.
  intros Hle. apply gtb_false_le in Hle.
  destruct obj; simpl; by rewrite Hle.
Qed.

Lemma trace_truncated obj path depth max_depth seen :
  max_depth < depth -> trace obj path depth max_depth seen = [].
Proof.
  intros Hlt. apply Z.gtb_lt in Hlt. destruct obj; simpl; by rewrite Hlt.
Qed.

(** ** Dictionaries *)

Section DictFacts.
Context {A : Type}.
Implicit Types (d : list (string * A)) (k : string) (a : A).

Lemma dict_get_Some_elem k a d : dict_get k d = Some a -> (k, a) ∈ d.
Proof.
  induction d as [|[k' a'] d IH]; simpl; [done|].
  destruct (String.eqb_spec k k') as [->|Hne].
  - intros Heq. injection Heq as ->. rewrite elem_of_cons. by left.
  - intros H. rewrite elem_of_cons. right. by apply IH.
Qed.

Lemma dict_get_elem k a d :
  NoDup (dict_keys d) -> (k, a) ∈ d -> dict_get k d = Some a.
Proof.
  induction d as [|[k' a'] d IH]; simpl.
  - intros _ H. by apply elem_of_nil in H.
  - intros Hnd Hin. apply NoDup_cons in Hnd as [Hk' Hnd].
    apply elem_of_cons in Hin as [[= -> ->]|Hin].
    + by rewrite String.eqb_refl.
    + destruct (String.eqb_spec k k') as [->|Hne]; [|by apply IH].
      exfalso. apply Hk'. unfold dict_keys.
      apply list_elem_of_fmap. by exists (k', a).
Qed.

Lemma dict_keys_set k a d :
  dict_keys (dict_set k a d)
  = if decide (k ∈ dict_keys d) then dict_keys d else dict_keys d ++ [k].
Proof.
  induction d as [|[k' a'] d IH]; simpl.
  - by destruct (decide (k ∈ [])) as [Hin%elem_of_nil|].
  - destruct (String.eqb_spec k k') as [->|Hne]; simpl.
    + rewrite decide_True; [done | rewrite elem_of_cons; by left].
    + rewrite IH. destruct (decide (k ∈ dict_keys d)) as [Hin|Hnin].
      * rewrite decide_True; [done | rewrite elem_of_cons; by right].
      * rewrite decide_False; [done|]. rewrite not_elem_of_cons. done.
Qed.

Lemma dict_keys_set_new k a d :
  k ∉ dict_keys d -> dict_keys (dict_set k a d) = dict_keys d ++ [k].
Proof. intros H. rewrite dict_keys_set. by rewrite decide_False. Qed.

Lemma dict_set_NoDup k a d :
  NoDup (dict_keys d) -> NoDup (dict_keys (dict_set k a d)).
Proof.
  intros Hnd. rewrite dict_keys_set.
  destruct (decide (k ∈ dict_keys d)) as [Hin|Hnin]; [done|].
  apply NoDup_app. split; [done|]. split.
  - intros x Hx Hx'. apply list_elem_of_singleton in Hx'. by subst.
  - apply NoDup_singleton.
Qed.

Lemma dict_set_Forall (Q : A -> Prop) k a d :
  Q a -> Forall (fun kv => Q kv.2) d ->
  Forall (fun kv => Q kv.2) (dict_set k a d).
Proof.
  intros Ha. induction d as [|[k' a'] d IH]; simpl; intros Hd.
  - by constructor.
  - apply Forall_cons in Hd as [Ha' Hd].
    destruct (String.eqb k k'); constructor; auto.
Qed.

Lemma dict_get_set_eq k a d : dict_get k (dict_set k a d) = Some a.
Proof.
  induction d as [|[k' a'] d IH]; simpl.
  - by rewrite String.eqb_refl.
  - destruct (String.eqb_spec k k') as [->|Hne]; simpl.
    + by rewrite String.eqb_refl.
    + by rewrite (proj2 (String.eqb_neq k k') Hne).
Qed.
End DictFacts.

(** ** The two loops *)

Section LoopFacts.
Variable rec : value -> string -> paths -> descriptor * paths.

Lemma sample_loop_length path xs i n seen :
  length (sample_loop rec path xs i n seen).1 = Nat.min n (length xs).
Proof.
  revert xs i seen. induction n as [|n IH]; intros [|x xs] i seen; simpl;
    try done.
  destruct (rec x _ seen) as [d seen1].
  specialize (IH xs (S i) seen1).
  destruct (sample_loop rec path xs (S i) n seen1) as [ds seen2].
  simpl in *. by rewrite IH.
Qed.

(** Only the first [n] elements are ever passed to the recursive call. *)
Lemma sample_loop_take path xs i n seen :
  sample_loop rec path xs i n seen = sample_loop rec path (take n xs) i n seen.
Proof.
  revert xs i seen. induction n as [|n IH]; intros [|x xs] i seen; simpl;
    try done.
  destruct (rec x _ seen) as [d seen1]. by rewrite <- IH.
Qed.

(** The [k]-th sample is the recursive call on [xs[k]], made with the
    [seen_paths] left by the [k] calls before it. *)
Lemma sample_loop_lookup path xs i n seen k x :
  (k < n)%nat -> xs !! k = Some x ->
  (sample_loop rec path xs i n seen).1 !! k
  = Some (rec x (item_path path (i + k))
              (sample_loop rec path xs i k seen).2).1.
Proof.
  revert xs i n seen. induction k as [|k IH]; intros [|y xs] i [|n] seen Hk Hx;
    simplify_eq/=; try lia.
  - rewrite Nat.add_0_r. destruct (rec x _ seen) as [d seen1].
    by destruct (sample_loop rec path xs (S i) n seen1).
  - destruct (rec y _ seen) as [d seen1] eqn:Hy.
    specialize (IH xs (S i) n seen1 ltac:(lia) Hx).
    destruct (sample_loop rec path xs (S i) n seen1) as [ds seen2].
    destruct (sample_loop rec path xs (S i) k seen1) as [ds' seen2'] eqn:Hk'.
    simpl in *. rewrite IH. by replace (S (i + k))%nat with (i + S k)%nat by lia.
Qed.

Lemma sample_loop_Forall (Q : descriptor -> Prop) path xs i n seen :
  Forall (fun x => forall p s, Q (rec x p s).1) xs ->
  Forall Q (sample_loop rec path xs i n seen).1.
Proof.
  intros Hxs. revert i n seen.
  induction Hxs as [|x xs Hx _ IH]; intros i [|n] seen; simpl;
    try by constructor.
  specialize (Hx (item_path path i) seen).
  destruct (rec x _ seen) as [d seen1].
  specialize (IH (S i) n seen1).
  destruct (sample_loop rec path xs (S i) n seen1) as [ds seen2].
  by constructor.
Qed.

Lemma property_loop_Forall (Q : descriptor -> Prop) path kvs props seen :
  Forall (fun kv => forall p s, Q (rec kv.2 p s).1) kvs ->
  Forall (fun kv => Q kv.2) props ->
  Forall (fun kv => Q kv.2) (property_loop rec path kvs props seen).1.
Proof.
  intros Hkvs. revert props seen.
  induction Hkvs as [|[k v] kvs Hv _ IH]; intros props seen Hprops; simpl;
    [done|].
  destruct (decide (child_path path k ∈ seen)); [by apply IH|].
  specialize (Hv (child_path path k) ({[child_path path k]} ∪ seen)).
  simpl in Hv. destruct (rec v _ _) as [d seen1]. apply IH.
  by apply dict_set_Forall.
Qed.

Lemma property_loop_NoDup path kvs props seen :
  NoDup (dict_keys props) ->
  NoDup (dict_keys (property_loop rec path kvs props seen).1).
Proof.
  revert props seen. induction kvs as [|[k v] kvs IH]; intros props seen Hnd;
    simpl; [done|].
  destruct (decide (child_path path k ∈ seen)); [by apply IH|].
  destruct (rec v _ _) as [d seen1]. apply IH. by apply dict_set_NoDup.
Qed.

(** When every child path is already in [seen_paths] the loop changes
    nothing. *)
Lemma property_loop_all_seen path kvs props seen :
  (forall k, k ∈ dict_keys kvs -> child_path path k ∈ seen) ->
  property_loop rec path kvs props seen = (props, seen).
Proof.
  revert props. induction kvs as [|[k v] kvs IH]; intros props Hall; simpl;
    [done|].
  rewrite decide_True by (apply Hall; simpl; rewrite elem_of_cons; by left).
  apply IH. intros k' Hk'. apply Hall. simpl. rewrite elem_of_cons. by right.
Qed.
End LoopFacts.

(** ** Properties of every node of a result *)

Lemma nodes_self d : d ∈ nodes d.
Proof. destruct d. simpl. rewrite elem_of_cons. by left. Qed.

Lemma Forall_flat_map {A B} (Q : B -> Prop) (f : A -> list B) (l : list A) :
  Forall (fun a => Forall Q (f a)) l -> Forall Q (flat_map f l).
Proof.
  induction 1 as [|a l Ha _ IH]; simpl; [constructor|].
  apply Forall_app. by split.
Qed.

Lemma samples_0_Forall (Q : descriptor -> Prop) samples :
  Q truncated -> Forall Q samples -> Q (samples_0 samples).
Proof. intros Ht [|s0 rest Hs0 _]; simpl; done. Qed.

(** A property [Q] that holds at the root of every result (for arguments
    in a class [G] closed under taking elements and member values) holds at
    every node of every result. *)
Lemma analyze_structure_every (Q : descriptor -> Prop) (G : value -> Prop) :
  (forall l, G (VList l) -> Forall G l) ->
  (forall kvs, G (VDict kvs) -> Forall (fun kv => G kv.2) kvs) ->
  (forall v path depth max_depth seen,
      G v -> Q (analyze_structure v path depth max_depth seen).1) ->
  forall v, G v -> forall path depth max_depth seen,
    Forall Q (nodes (analyze_structure v path depth max_depth seen).1).
Proof.
  intros HGl HGd HQ v.
  induction v as [| | | | |l IH|kvs IH|] using value_nested_ind;
    intros HG path depth max_depth seen;
    (destruct (Z_lt_le_dec max_depth depth) as [Hlt|Hle];
     [ specialize (HQ _ path depth max_depth seen HG);
       rewrite analyze_structure_truncated in * by done;
       by repeat constructor
     | specialize (HQ _ path depth max_depth seen HG) as Hroot;
       rewrite analyze_structure_unfold in * by done; simpl in * ]);
    try (by repeat constructor).
  - assert (Q truncated) as Htrunc.
    { specialize (HQ _ path (max_depth + 1) max_depth seen HG).
      by rewrite analyze_structure_truncated in HQ by lia. }
    destruct (0 <? length l)%nat; [|by repeat constructor].
    assert (Forall (fun d => Forall Q (nodes d))
              (sample_loop
                 (fun x p s => analyze_structure x p (depth + 1) max_depth s)
                 path l 0 (Nat.min 3 (length l)) seen).1) as Hs.
    { apply sample_loop_Forall. apply HGl in HG.
      eapply Forall_impl; [apply Forall_and; split; [exact IH | exact HG]|].
      intros x [Hx HGx] p s. by apply Hx. }
    destruct (sample_loop _ _ _ _ _ _) as [samples seen']. simpl in *.
    destruct (all_same samples); simpl in *.
    + constructor; [done|]. rewrite app_nil_r.
      apply (samples_0_Forall (fun d => Forall Q (nodes d))); [|done].
      by repeat constructor.
    + constructor; [done|]. rewrite app_nil_r. by apply Forall_flat_map.
  - assert (Forall (fun kv => Forall Q (nodes kv.2))
              (property_loop
                 (fun v p s => analyze_structure v p (depth + 1) max_depth s)
                 path kvs [] seen).1) as Hp.
    { apply (property_loop_Forall _ (fun d => Forall Q (nodes d)));
        [|constructor].
      apply HGd in HG.
      eapply Forall_impl; [apply Forall_and; split; [exact IH | exact HG]|].
      intros x [Hx HGx] p s. by apply Hx. }
    destruct (property_loop _ _ _ _ _) as [props seen']. simpl in *.
    constructor; [done|]. by apply Forall_flat_map.
Qed.

Lemma analyze_structure_unique_keys v path depth max_depth seen :
  unique_keys (analyze_structure v path depth max_depth seen).1.
Proof.
  destruct (Z_lt_le_dec max_depth depth) as [Hlt|Hle].
  { by rewrite analyze_structure_truncated. }
  rewrite analyze_structure_unfold by done.
  destruct v; simpl; try done.
  - destruct (0 <? length l)%nat; [|done].
    destruct (sample_loop _ _ _ _ _ _) as [samples seen'].
    by destruct (all_same samples).
  - pose proof (property_loop_NoDup
                  (fun v p s => analyze_structure v p (depth + 1) max_depth s)
                  path kvs [] seen) as Hnd.
    destruct (property_loop _ _ _ _ _) as [props seen']. simpl in *.
    apply Hnd. constructor.
Qed.

Lemma analyze_structure_wf v path depth max_depth seen :
  wf_descriptor (analyze_structure v path depth max_depth seen).1.
Proof.
  apply (analyze_structure_every unique_keys (fun _ => True)); try done.
  - intros l _. by apply Forall_forall.
  - intros kvs _. by apply Forall_forall.
  - intros. apply analyze_structure_unique_keys.
Qed.

(** ** Deep equality of descriptors is an equivalence *)

Lemma option_eqb_eq {A} (eqb : A -> A -> bool) (o1 o2 : option A) :
  (forall a b, eqb a b = true <-> a = b) ->
  option_eqb eqb o1 o2 = true <-> o1 = o2.
Proof.
  intros Heqb. destruct o1 as [a|], o2 as [b|]; simpl; try done.
  rewrite Heqb. split; congruence.
Qed.

Section ListEqb.
Context {A : Type} (eqb : A -> A -> bool).

Lemma list_eqb_refl l :
  Forall (fun a => eqb a a = true) l -> list_eqb eqb l l = true.
Proof. induction 1 as [|a l Ha _ IH]; simpl; [done|]. by rewrite Ha, IH. Qed.

Lemma list_eqb_sym (W : A -> Prop) l1 l2 :
  Forall (fun a => forall b, W b -> eqb a b = true -> eqb b a = true) l1 ->
  Forall W l2 ->
  list_eqb eqb l1 l2 = true -> list_eqb eqb l2 l1 = true.
Proof.
  intros H1. revert l2. induction H1 as [|a l1 Ha _ IH]; intros [|b l2] HW;
    simpl; try done.
  apply Forall_cons in HW as [Hb HW].
  rewrite !andb_true_iff. intros [Hab Hl]. split; [by apply Ha | by apply IH].
Qed.

Lemma list_eqb_trans l1 l2 l3 :
  Forall (fun a => forall b c, eqb a b = true -> eqb b c = true ->
                               eqb a c = true) l1 ->
  list_eqb eqb l1 l2 = true -> list_eqb eqb l2 l3 = true ->
  list_eqb eqb l1 l3 = true.
Proof.
  intros H1. revert l2 l3.
  induction H1 as [|a l1 Ha _ IH]; intros [|b l2] [|c l3]; simpl; try done.
  rewrite !andb_true_iff. intros [Hab Hl] [Hbc Hl'].
  split; [by eapply Ha | by eapply IH].
Qed.
End ListEqb.

Section DictEqb.
Context {A : Type} (eqb : A -> A -> bool).
Implicit Types d : list (string * A).

Lemma dict_eqb_true d1 d2 :
  dict_eqb eqb d1 d2 = true <->
  length d1 = length d2
  /\ forall k a, (k, a) ∈ d1 ->
       exists a2, dict_get k d2 = Some a2 /\ eqb a a2 = true.
Proof.
  unfold dict_eqb. rewrite andb_true_iff, Nat.eqb_eq, forallb_forall.
  split; intros [Hlen Hall]; (split; [done|]).
  - intros k a Hin. apply list_elem_of_In in Hin. apply Hall in Hin.
    simpl in Hin. destruct (dict_get k d2) as [a2|]; [|done]. by exists a2.
  - intros [k a] Hin. apply list_elem_of_In in Hin.
    destruct (Hall k a Hin) as (a2 & Hget & Ha). simpl. by rewrite Hget.
Qed.

Lemma dict_eqb_refl d :
  NoDup (dict_keys d) -> Forall (fun kv => eqb kv.2 kv.2 = true) d ->
  dict_eqb eqb d d = true.
Proof.
  intros Hnd Hall. apply dict_eqb_true. split; [done|].
  intros k a Hin. exists a. split; [by apply dict_get_elem|].
  rewrite Forall_forall in Hall. by apply (Hall (k, a)).
Qed.

Lemma dict_eqb_keys_incl d1 d2 :
  dict_eqb eqb d1 d2 = true ->
  forall k, k ∈ dict_keys d1 -> k ∈ dict_keys d2.
Proof.
  intros [_ Hall]%dict_eqb_true k Hk.
  apply list_elem_of_fmap in Hk as ([k' a] & -> & Hin).
  destruct (Hall k' a Hin) as (a2 & Hget & _).
  apply dict_get_Some_elem in Hget.
  apply list_elem_of_fmap. by exists (k', a2).
Qed.

Lemma dict_eqb_keys_incl_rev d1 d2 :
  NoDup (dict_keys d1) -> dict_eqb eqb d1 d2 = true ->
  forall k, k ∈ dict_keys d2 -> k ∈ dict_keys d1.
Proof.
  intros Hnd Heq k Hk.
  pose proof (dict_eqb_keys_incl _ _ Heq) as Hincl.
  apply dict_eqb_true in Heq as [Hlen _].
  apply list_elem_of_In.
  apply (List.NoDup_length_incl (l := dict_keys d1) (l' := dict_keys d2)).
  - by apply NoDup_ListNoDup.
  - unfold dict_keys. rewrite !length_map. lia.
  - intros x Hx. apply list_elem_of_In. apply Hincl. by apply list_elem_of_In.
  - by apply list_elem_of_In.
Qed.

Lemma dict_eqb_sym (W : A -> Prop) d1 d2 :
  NoDup (dict_keys d1) -> NoDup (dict_keys d2) ->
  Forall (fun kv => forall b, W b -> eqb kv.2 b = true -> eqb b kv.2 = true)
         d1 ->
  Forall (fun kv => W kv.2) d2 ->
  dict_eqb eqb d1 d2 = true -> dict_eqb eqb d2 d1 = true.
Proof.
  intros Hnd1 Hnd2 Hsym HW Heq.
  pose proof (dict_eqb_keys_incl_rev _ _ Hnd1 Heq) as Hrev.
  apply dict_eqb_true in Heq as [Hlen Hall].
  apply dict_eqb_true. split; [done|].
  intros k b Hin.
  assert (k ∈ dict_keys d1) as Hk.
  { apply Hrev. apply list_elem_of_fmap. by exists (k, b). }
  apply list_elem_of_fmap in Hk as ([k' a] & Hkk & Hin1). simpl in Hkk. subst k'.
  destruct (Hall k a Hin1) as (a2 & Hget & Ha).
  rewrite (dict_get_elem k b d2 Hnd2 Hin) in Hget. injection Hget as <-.
  exists a. split; [by apply dict_get_elem|].
  rewrite Forall_forall in Hsym, HW.
  apply (Hsym (k, a) Hin1); [|done]. by apply (HW (k, b)).
Qed.

Lemma dict_eqb_trans d1 d2 d3 :
  Forall (fun kv => forall b c, eqb kv.2 b = true -> eqb b c = true ->
                                eqb kv.2 c = true) d1 ->
  dict_eqb eqb d1 d2 = true -> dict_eqb eqb d2 d3 = true ->
  dict_eqb eqb d1 d3 = true.
Proof.
  intros Htr [Hlen12 H12]%dict_eqb_true [Hlen23 H23]%dict_eqb_true.
  apply dict_eqb_true. split; [congruence|].
  intros k a Hin. destruct (H12 k a Hin) as (a2 & Hget2 & Ha).
  destruct (H23 k a2 (dict_get_Some_elem _ _ _ Hget2)) as (a3 & Hget3 & Ha2).
  exists a3. split; [done|].
  rewrite Forall_forall in Htr. by apply (Htr (k, a) Hin a2 a3).
Qed.
End DictEqb.

Lemma Forall_flat_map_inv {A B} (Q : B -> Prop) (f : A -> list B) (l : list A) :
  Forall Q (flat_map f l) -> Forall (fun a => Forall Q (f a)) l.
Proof.
  induction l as [|a l IH]; simpl; [constructor|].
  intros [Ha Hl]%Forall_app. constructor; auto.
Qed.

Lemma wf_descriptor_inv t n l i s p :
  wf_descriptor (Descriptor t n l i s p) ->
  match p with Some q => NoDup (dict_keys q) | None => True end
  /\ match i with
     | Some (ItemsOne a) => wf_descriptor a
     | Some (ItemsMany ds) => Forall wf_descriptor ds
     | None => True
     end
  /\ match p with
     | Some q => Forall (fun kv => wf_descriptor kv.2) q
     | None => True
     end.
Proof.
  unfold wf_descriptor. simpl.
  intros [Hroot [Hi Hp]%Forall_app]%Forall_cons.
  split; [done|]. split.
  - destruct i as [[a|ds]|]; [done| |done]. by apply Forall_flat_map_inv.
  - destruct p as [q|]; [|done].
    by apply (Forall_flat_map_inv _ (fun kv => nodes kv.2)).
Qed.

Lemma descriptor_eqb_true t1 n1 l1 i1 s1 p1 t2 n2 l2 i2 s2 p2 :
  descriptor_eqb (Descriptor t1 n1 l1 i1 s1 p1) (Descriptor t2 n2 l2 i2 s2 p2)
  = true
  <-> t1 = t2 /\ n1 = n2 /\ l1 = l2 /\ s1 = s2
      /\ items_eqb i1 i2 = true /\ properties_eqb p1 p2 = true.
Proof.
  change (descriptor_eqb (Descriptor t1 n1 l1 i1 s1 p1)
                         (Descriptor t2 n2 l2 i2 s2 p2))
    with (String.eqb t1 t2 && option_eqb String.eqb n1 n2
          && option_eqb Nat.eqb l1 l2 && items_eqb i1 i2
          && option_eqb String.eqb s1 s2 && properties_eqb p1 p2).
  rewrite !andb_true_iff, String.eqb_eq.
  rewrite !(option_eqb_eq String.eqb) by apply String.eqb_eq.
  rewrite (option_eqb_eq Nat.eqb) by apply Nat.eqb_eq.
  tauto.
Qed.

(** On well-formed descriptors [==] is reflexive, symmetric and
    transitive. *)
Lemma descriptor_eqb_equiv d :
  wf_descriptor d ->
  descriptor_eqb d d = true
  /\ (forall b, wf_descriptor b -> descriptor_eqb d b = true ->
                descriptor_eqb b d = true)
  /\ (forall b c, descriptor_eqb d b = true -> descriptor_eqb b c = true ->
                  descriptor_eqb d c = true).
Proof.
  induction d as [t n l i s p IHi IHp] using descriptor_nested_ind.
  intros (Hnd & Hwfi & Hwfp)%wf_descriptor_inv.
  assert (match i with
          | Some (ItemsOne a) =>
              descriptor_eqb a a = true
              /\ (forall b, wf_descriptor b -> descriptor_eqb a b = true ->
                            descriptor_eqb b a = true)
              /\ (forall b c, descriptor_eqb a b = true ->
                              descriptor_eqb b c = true ->
                              descriptor_eqb a c = true)
          | Some (ItemsMany ds) =>
              Forall (fun a =>
                descriptor_eqb a a = true
                /\ (forall b, wf_descriptor b -> descriptor_eqb a b = true ->
                              descriptor_eqb b a = true)
                /\ (forall b c, descriptor_eqb a b = true ->
                                descriptor_eqb b c = true ->
                                descriptor_eqb a c = true)) ds
          | None => True
          end) as Hi.
  { destruct i as [[a|ds]|]; [by apply IHi| |done].
    eapply Forall_impl; [apply Forall_and; split; [exact IHi|exact Hwfi]|].
    intros a [Ha Hwa]. by apply Ha. }
  assert (match p with
          | Some q =>
              Forall (fun kv =>
                descriptor_eqb kv.2 kv.2 = true
                /\ (forall b, wf_descriptor b -> descriptor_eqb kv.2 b = true ->
                              descriptor_eqb b kv.2 = true)
                /\ (forall b c, descriptor_eqb kv.2 b = true ->
                                descriptor_eqb b c = true ->
                                descriptor_eqb kv.2 c = true)) q
          | None => True
          end) as Hp.
  { destruct p as [q|]; [|done].
    eapply Forall_impl; [apply Forall_and; split; [exact IHp|exact Hwfp]|].
    intros a [Ha Hwa]. by apply Ha. }
  clear IHi IHp. split; [|split].
  - apply descriptor_eqb_true. repeat (split; [done|]). split.
    + destruct i as [[a|ds]|]; simpl; [by destruct Hi| |done].
      apply list_eqb_refl. eapply Forall_impl; [exact Hi|]. by intros a [? _].
    + destruct p as [q|]; simpl; [|done].
      apply dict_eqb_refl; [done|].
      eapply Forall_impl; [exact Hp|]. by intros a [? _].
  - intros [t2 n2 l2 i2 s2 p2] (Hnd2 & Hwfi2 & Hwfp2)%wf_descriptor_inv.
    rewrite !descriptor_eqb_true.
    intros (-> & -> & -> & -> & Hie & Hpe). repeat (split; [done|]). split.
    + destruct i as [[a|ds]|], i2 as [[a2|ds2]|]; simpl in *; try done.
      * destruct Hi as (_ & Hsym & _). by apply Hsym.
      * apply (list_eqb_sym _ wf_descriptor ds ds2); [|done|done].
        eapply Forall_impl; [exact Hi|]. by intros a (_ & ? & _).
    + destruct p as [q|], p2 as [q2|]; simpl in *; try done.
      apply (dict_eqb_sym _ wf_descriptor q q2); try done.
      eapply Forall_impl; [exact Hp|]. by intros a (_ & ? & _).
  - intros [t2 n2 l2 i2 s2 p2] [t3 n3 l3 i3 s3 p3].
    rewrite !descriptor_eqb_true.
    intros (-> & -> & -> & -> & Hie & Hpe) (-> & -> & -> & -> & Hie' & Hpe').
    repeat (split; [done|]). split.
    + destruct i as [[a|ds]|], i2 as [[a2|ds2]|], i3 as [[a3|ds3]|];
        simpl in *; try done.
      * destruct Hi as (_ & _ & Htr). by apply (Htr a2 a3).
      * apply (list_eqb_trans _ ds ds2 ds3); [|done|done].
        eapply Forall_impl; [exact Hi|]. by intros a (_ & _ & ?).
    + destruct p as [q|], p2 as [q2|], p3 as [q3|]; simpl in *; try done.
      apply (dict_eqb_trans _ q q2 q3); [|done|done].
      eapply Forall_impl; [exact Hp|]. by intros a (_ & _ & ?).
Qed.

(** ** Arrays (C2) *)

Lemma all_same_pairwise samples :
  Forall wf_descriptor samples ->
  all_same samples = true <-> pairwise_identical samples.
Proof.
  intros Hwf. destruct samples as [|s0 samples]; simpl.
  { split; [|done]. intros _ a b Ha. by apply elem_of_nil in Ha. }
  split.
  - intros Hall a b Ha Hb.
    change (forallb (fun s => descriptor_eqb s s0) (s0 :: samples) = true)
      in Hall.
    rewrite forallb_forall in Hall.
    rewrite Forall_forall in Hwf.
    pose proof (Hall a (proj1 (list_elem_of_In _ _) Ha)) as Ha0.
    pose proof (Hall b (proj1 (list_elem_of_In _ _) Hb)) as Hb0.
    destruct (descriptor_eqb_equiv a (Hwf a Ha)) as (_ & _ & Htrans).
    destruct (descriptor_eqb_equiv b (Hwf b Hb)) as (_ & Hsym & _).
    apply (Htrans s0 b Ha0). apply Hsym; [|done].
    apply Hwf. rewrite elem_of_cons. by left.
  - intros Hpair.
    change (forallb (fun s => descriptor_eqb s s0) (s0 :: samples) = true).
    apply forallb_forall. intros a Ha. apply list_elem_of_In in Ha.
    apply Hpair; [done|]. rewrite elem_of_cons. by left.
Qed.

Section SampleTrace.
Variable rec : value -> string -> paths -> descriptor * paths.
Variable rec_trace : value -> string -> paths -> list event.

Lemma sample_trace_take path xs i n seen :
  sample_trace rec rec_trace path xs i n seen
  = sample_trace rec rec_trace path (take n xs) i n seen.
Proof.
  revert xs i seen. induction n as [|n IH]; intros [|x xs] i seen; simpl;
    try done.
  by rewrite <- IH.
Qed.
End SampleTrace.

Lemma analyze_structure_list_take l l' path depth max_depth seen :
  take 3 l' = take 3 l -> length l' = length l ->
  analyze_structure (VList l') path depth max_depth seen
  = analyze_structure (VList l) path depth max_depth seen
  /\ trace (VList l') path depth max_depth seen
     = trace (VList l) path depth max_depth seen.
Proof.
  intros Htake Hlen.
  destruct (Z_lt_le_dec max_depth depth) as [Hlt|Hle].
  { by rewrite !analyze_structure_truncated, !trace_truncated. }
  rewrite !analyze_structure_unfold, !trace_unfold by done. simpl.
  rewrite Hlen.
  assert (take (Nat.min 3 (length l)) l' = take (Nat.min 3 (length l)) l)
    as Htake'.
  { replace (Nat.min 3 (length l))
      with (Nat.min (Nat.min 3 (length l)) 3) by lia.
    rewrite <- !take_take. by rewrite Htake. }
  rewrite (sample_loop_take _ path l'), (sample_trace_take _ _ path l').
  rewrite (sample_loop_take _ path l), (sample_trace_take _ _ path l).
  by rewrite Htake'.
Qed.

Lemma analyze_structure_list_samples_wf l path depth max_depth seen i n :
  Forall wf_descriptor
    (sample_loop (fun x p s => analyze_structure x p (depth + 1) max_depth s)
       path l i n seen).1.
Proof.
  apply sample_loop_Forall. apply Forall_forall.
  intros x _ p s. apply analyze_structure_wf.
Qed.

(** C2: an empty array gets length 0 and no ["items"]; otherwise the first
    [min(3, len)] elements, and no others, are analysed at [depth + 1], each
    on its bracketed path, and ["items"] is the first of the sampled
    descriptors when they are pairwise identical under [==] and the list of
    them, in order, when they are not.  So [[1, 2, 3, 4]] gets one integer
    descriptor and [[1, "a", true]] the list integer, string with sample
    ["a"], boolean. *)
Theorem C2_array_sampling l path depth max_depth seen :
  depth <= max_depth ->
  let rec := fun x p s => analyze_structure x p (depth + 1) max_depth s in
  let samples := (sample_loop rec path l 0 (Nat.min 3 (length l)) seen).1 in
  let d := (analyze_structure (VList l) path depth max_depth seen).1 in
  d_length d = Some (length l)
  /\ (l = [] -> d_items d = None)
  /\ length samples = Nat.min 3 (length l)
  /\ (forall i x, (i < 3)%nat -> l !! i = Some x ->
        samples !! i
        = Some (analyze_structure x (item_path path i) (depth + 1) max_depth
                  (sample_loop rec path l 0 i seen).2).1)
  /\ (l <> [] -> pairwise_identical samples ->
        exists s0, samples !! 0%nat = Some s0
                   /\ d_items d = Some (ItemsOne s0))
  /\ (l <> [] -> ~ pairwise_identical samples ->
        d_items d = Some (ItemsMany samples))
  /\ (forall l', take 3 l' = take 3 l -> length l' = length l ->
        analyze_structure (VList l') path depth max_depth seen
        = analyze_structure (VList l) path depth max_depth seen
        /\ trace (VList l') path depth max_depth seen
           = trace (VList l) path depth max_depth seen)
  /\ analyze (VList [VInt 1; VInt 2; VInt 3; VInt 4]) 5
     = set_items (ItemsOne (new_result "integer"))
         (set_length 4 (new_result "array"))
  /\ analyze (VList [VInt 1; VStr "a"; VBool true]) 5
     = set_items (ItemsMany [new_result "integer";
                             set_sample "a" (new_result "string");
                             new_result "boolean"])
         (set_length 3 (new_result "array")).
Proof.
  intros Hle rec samples d.
  assert (Forall wf_descriptor samples) as Hwf
    by apply analyze_structure_list_samples_wf.
  assert (length samples = Nat.min 3 (length l)) as Hlen.
  { unfold samples. rewrite sample_loop_length. lia. }
  pose proof (all_same_pairwise samples Hwf) as Hsame.
  assert (d = if (0 <? length l)%nat then
                if all_same samples then
                  set_items (ItemsOne (samples_0 samples))
                    (set_length (length l) (new_result "array"))
                else
                  set_items (ItemsMany samples)
                    (set_length (length l) (new_result "array"))
              else set_length 0 (new_result "array")) as Hd.
  { unfold d. rewrite analyze_structure_unfold by done. cbv zeta.
    destruct (0 <? length l)%nat; [|done].
    unfold samples, rec.
    destruct (sample_loop _ path l 0 _ seen) as [ss seen'].
    simpl. by destruct (all_same ss). }
  clearbody d. subst d.
  split; [|split; [|split; [|split; [|split; [|split; [|split; [|split]]]]]]].
  - destruct (0 <? length l)%nat eqn:Hl.
    + by destruct (all_same samples).
    + apply Nat.ltb_ge in Hl. simpl. f_equal. lia.
  - by intros ->.
  - done.
  - intros i x Hi Hx. unfold samples.
    assert (i < length l)%nat by (by eapply lookup_lt_Some).
    by rewrite (sample_loop_lookup rec path l 0 _ seen i x) by (done || lia).
  - intros Hne Hpair. apply Hsame in Hpair. rewrite Hpair.
    destruct l as [|x l]; [done|]. simpl in Hlen.
    destruct samples as [|s0 ss]; [done|]. by exists s0.
  - intros Hne Hpair.
    assert (all_same samples = false) as ->.
    { destruct (all_same samples); [|done]. exfalso. by apply Hpair, Hsame. }
    by destruct l.
  - intros l'. apply analyze_structure_list_take.
  - by vm_compute.
  - by vm_compute.
Qed.

Lemma C2_array_sampling_witness :
  d_length (analyze_structure (VList [VInt 1; VInt 2; VInt 3; VInt 4])
              "root" 0 5 ∅).1 = Some 4%nat
  /\ d_items (analyze_structure (VList []) "root" 0 5 ∅).1 = None.
Proof.
  split.
  - by destruct (C2_array_sampling [VInt 1; VInt 2; VInt 3; VInt 4]
                   "root" 0 5 ∅) as (H1 & _); [lia|].
  - destruct (C2_array_sampling [] "root" 0 5 ∅) as (_ & H2 & _); [lia|].
    by apply H2.
Defined.

(** ** Objects always carry ["properties"] (C10) *)

Lemma analyze_structure_dict kvs path depth max_depth seen :
  depth <= max_depth ->
  analyze_structure (VDict kvs) path depth max_depth seen
  = let run := property_loop
                 (fun v p s => analyze_structure v p (depth + 1) max_depth s)
                 path kvs [] seen in
    (set_properties run.1 (new_result "object"), run.2).
Proof.
  intros Hle. rewrite analyze_structure_unfold by done. simpl.
  by destruct (property_loop _ _ _ _ _).
Qed.

(** C10: within the depth limit the descriptor of an object always has a
    ["properties"] entry; it is the empty dictionary when the object has no
    keys and when every key's child path is already in [seen_paths]. *)
Theorem C10_object_always_has_properties kvs path depth max_depth seen :
  depth <= max_depth ->
  let d := (analyze_structure (VDict kvs) path depth max_depth seen).1 in
  (exists props, d_properties d = Some props)
  /\ (kvs = [] -> d_properties d = Some [])
  /\ ((forall k, k ∈ dict_keys kvs -> child_path path k ∈ seen) ->
      d_properties d = Some []).
Proof.
  intros Hle d. subst d. rewrite analyze_structure_dict by done. simpl.
  split; [by eexists|]. split.
  - by intros ->.
  - intros Hall. by rewrite property_loop_all_seen.
Qed.

Lemma C10_object_always_has_properties_witness :
  d_properties (analyze_structure (VDict [("a", VInt 1)])
                  "root" 0 5 {["root.a"]}).1 = Some []
  /\ d_properties (analyze_structure (VDict []) "root" 0 5 ∅).1 = Some [].
Proof.
  split.
  - destruct (C10_object_always_has_properties [("a", VInt 1)]
                "root" 0 5 {["root.a"]}) as (_ & _ & H3); [lia|].
    apply H3. intros k Hk. apply list_elem_of_singleton in Hk. subst k.
    apply (bool_decide_unpack _). by vm_compute.
  - destruct (C10_object_always_has_properties [] "root" 0 5 ∅)
      as (_ & H2 & _); [lia|].
    by apply H2.
Defined.

(** ** Optional entries are determined by the kind (C5) *)

Lemma is_json_list l : is_json (VList l) = true -> Forall (fun x => is_json x = true) l.
Proof. simpl. intros H. apply Forall_forall. intros x Hx.
  rewrite forallb_forall in H. apply H. by apply list_elem_of_In. Qed.

Lemma is_json_dict kvs :
  is_json (VDict kvs) = true -> Forall (fun kv => is_json kv.2 = true) kvs.
Proof. simpl. intros H. apply Forall_forall. intros x Hx.
  rewrite forallb_forall in H. apply H. by apply list_elem_of_In. Qed.

Lemma analyze_structure_fields_by_kind v path depth max_depth seen :
  is_json v = true ->
  fields_by_kind (analyze_structure v path depth max_depth seen).1 = true.
Proof.
  intros Hjson. destruct (Z_lt_le_dec max_depth depth) as [Hlt|Hle].
  { by rewrite analyze_structure_truncated. }
  rewrite analyze_structure_unfold by done.
  destruct v; simpl; try done.
  - destruct l as [|x l]; [done|].
    change (0 <? length (x :: l))%nat with true. cbv iota.
    destruct (sample_loop _ _ _ _ _ _) as [samples seen'].
    by destruct (all_same samples).
  - by destruct (property_loop _ _ _ _ _).
Qed.

Lemma fields_by_kind_groups d :
  fields_by_kind d = true ->
  (populated_groups d <= 1)%nat
  /\ (populated_groups d = 1%nat <->
      d_type d = "string" \/ d_type d = "array" \/ d_type d = "object").
Proof.
  destruct d as [t n l i s p]. unfold fields_by_kind, populated_groups. simpl.
  rewrite !andb_true_iff, !Bool.eqb_true_iff.
  intros ((((Hs & Hl) & Hi) & Hp) & _).
  destruct (String.eqb_spec t "string") as [->|Hns].
  { destruct s, l, i, p; simpl in *; try discriminate. split; [lia|tauto]. }
  destruct (String.eqb_spec t "array") as [->|Hna].
  { destruct s, l as [[|k]|], i, p; simpl in *; try discriminate;
      (split; [lia|tauto]). }
  destruct (String.eqb_spec t "object") as [->|Hno].
  { destruct s, l, i, p; simpl in *; try discriminate. split; [lia|tauto]. }
  destruct s, l, i, p; simpl in *; try discriminate.
  split; [lia|]. split; [lia|tauto].
Qed.

(** C5 (amended): at every node of the descriptor of a JSON value the
    optional entries are those the ["type"] calls for ([fields_by_kind]), so
    at most one of the three groups is populated, and exactly one precisely
    on strings, arrays and objects. *)
Theorem C5_fields_determined_by_kind v path depth max_depth seen n :
  is_json v = true ->
  n ∈ nodes (analyze_structure v path depth max_depth seen).1 ->
  fields_by_kind n = true
  /\ (populated_groups n <= 1)%nat
  /\ (populated_groups n = 1%nat <->
      d_type n = "string" \/ d_type n = "array" \/ d_type n = "object").
Proof.
  intros Hjson Hn.
  assert (fields_by_kind n = true) as Hf.
  { pose proof (analyze_structure_every (fun d => fields_by_kind d = true)
                  (fun v => is_json v = true) is_json_list is_json_dict
                  (fun v p d m s H => analyze_structure_fields_by_kind v p d m s H)
                  v Hjson path depth max_depth seen) as Hall.
    rewrite Forall_forall in Hall. by apply Hall. }
  split; [done|]. by apply fields_by_kind_groups.
Qed.

Lemma C5_fields_determined_by_kind_witness :
  fields_by_kind (analyze_structure (VStr "hi") "root" 0 5 ∅).1 = true
  /\ (populated_groups (analyze_structure (VStr "hi") "root" 0 5 ∅).1 <= 1)%nat.
Proof.
  destruct (C5_fields_determined_by_kind (VStr "hi") "root" 0 5 ∅
              (analyze_structure (VStr "hi") "root" 0 5 ∅).1)
    as (H1 & H2 & _); [reflexivity | apply nodes_self | by split].
Defined.

(** C5 as stated fails: the descriptor of the integer [1] has none of the
    three groups. *)
Lemma C5_exactly_one_group_counterexample : ~ exactly_one_group (VInt 1) 5.
Proof.
  intros H. destruct (H (analyze (VInt 1) 5)) as [Hn _].
  - apply nodes_self.
  - vm_compute in Hn. discriminate.
Qed.

(** ** Accounting for [seen_paths] along the trace *)

Lemma key_calls_app t1 t2 : key_calls (t1 ++ t2) = key_calls t1 ++ key_calls t2.
Proof. unfold key_calls. by rewrite List.filter_app, map_app. Qed.

Lemma skips_app t1 t2 : skips (t1 ++ t2) = skips t1 ++ skips t2.
Proof. unfold skips. by rewrite List.filter_app, map_app. Qed.

Lemma accounted_nil seen : accounted seen seen [].
Proof.
  split; [|split; [|split]].
  - unfold key_calls. simpl. set_solver.
  - constructor.
  - intros q Hq. by apply elem_of_nil in Hq.
  - intros q Hq. by apply elem_of_nil in Hq.
Qed.

Lemma accounted_app seen seen1 seen2 t1 t2 :
  accounted seen seen1 t1 -> accounted seen1 seen2 t2 ->
  accounted seen seen2 (t1 ++ t2).
Proof.
  intros (-> & Hnd1 & Hout1 & Hsk1) (-> & Hnd2 & Hout2 & Hsk2).
  unfold accounted. rewrite key_calls_app, skips_app.
  split; [|split; [|split]].
  - rewrite list_to_set_app_L. set_solver.
  - apply NoDup_app. split; [done|]. split; [|done].
    intros q Hq1 Hq2. apply (Hout2 q Hq2). set_solver.
  - intros q [Hq|Hq]%elem_of_app; [by apply Hout1|].
    intros Hin. apply (Hout2 q Hq). set_solver.
  - intros q [Hq|Hq]%elem_of_app; [|by apply Hsk2].
    apply Hsk1 in Hq. set_solver.
Qed.

Lemma accounted_item seen seen' p tr :
  accounted seen seen' tr -> accounted seen seen' (Item p :: tr).
Proof. done. Qed.

Lemma accounted_skip seen seen' p tr :
  p ∈ seen -> accounted seen seen' tr -> accounted seen seen' (Skip p :: tr).
Proof.
  intros Hp (-> & Hnd & Hout & Hsk).
  split; [done|]. split; [done|]. split; [done|].
  change (skips (Skip p :: tr)) with (p :: skips tr).
  intros q [->|Hq]%elem_of_cons; [set_solver | by apply Hsk].
Qed.

Lemma accounted_key seen seen' p tr :
  p ∉ seen -> accounted ({[p]} ∪ seen) seen' tr ->
  accounted seen seen' (Key p :: tr).
Proof.
  intros Hp (-> & Hnd & Hout & Hsk).
  unfold accounted.
  change (key_calls (Key p :: tr)) with (p :: key_calls tr).
  change (skips (Key p :: tr)) with (skips tr).
  split; [|split; [|split]].
  - simpl. set_solver.
  - apply NoDup_cons. split; [|done]. intros Hin. apply (Hout p Hin). set_solver.
  - intros q [->|Hq]%elem_of_cons; [done|].
    intros Hin. apply (Hout q Hq). set_solver.
  - done.
Qed.

Lemma accounted_subseteq seen seen' tr : accounted seen seen' tr -> seen ⊆ seen'.
Proof. intros (-> & _). set_solver. Qed.

Section TraceLoopFacts.
Variable rec : value -> string -> paths -> descriptor * paths.
Variable rec_trace : value -> string -> paths -> list event.

Lemma sample_loop_accounted path xs i n seen :
  Forall (fun x => forall p s, accounted s (rec x p s).2 (rec_trace x p s)) xs ->
  accounted seen (sample_loop rec path xs i n seen).2
            (sample_trace rec rec_trace path xs i n seen).
Proof.
  intros Hxs. revert i n seen.
  induction Hxs as [|x xs Hx _ IH]; intros i [|n] seen; simpl;
    try apply accounted_nil.
  specialize (Hx (item_path path i) seen).
  specialize (IH (S i) n (rec x (item_path path i) seen).2).
  destruct (rec x _ seen) as [d seen1]. simpl in *.
  destruct (sample_loop rec path xs (S i) n seen1) as [ds seen2]. simpl in *.
  apply accounted_item. by eapply accounted_app.
Qed.

Lemma property_loop_accounted path kvs props seen :
  Forall (fun kv => forall p s, accounted s (rec kv.2 p s).2
                                          (rec_trace kv.2 p s)) kvs ->
  accounted seen (property_loop rec path kvs props seen).2
            (property_trace rec rec_trace path kvs seen).
Proof.
  intros Hkvs. revert props seen.
  induction Hkvs as [|[k v] kvs Hv _ IH]; intros props seen; simpl;
    [apply accounted_nil|].
  destruct (decide (child_path path k ∈ seen)) as [Hin|Hnin].
  { by apply accounted_skip, IH. }
  specialize (Hv (child_path path k) ({[child_path path k]} ∪ seen)).
  simpl in Hv.
  destruct (rec v _ _) as [d seen1]. simpl in *.
  apply accounted_key; [done|]. eapply accounted_app; [exact Hv|apply IH].
Qed.
End TraceLoopFacts.

Lemma analyze_structure_accounted v path depth max_depth seen :
  accounted seen (analyze_structure v path depth max_depth seen).2
            (trace v path depth max_depth seen).
Proof.
  revert path depth max_depth seen.
  induction v as [| | | | |l IH|kvs IH|] using value_nested_ind;
    intros path depth max_depth seen;
    (destruct (Z_lt_le_dec max_depth depth) as [Hlt|Hle];
     [ rewrite analyze_structure_truncated, trace_truncated by done;
       apply accounted_nil
     | rewrite analyze_structure_unfold, trace_unfold by done; simpl ]);
    try apply accounted_nil.
  - destruct (0 <? length l)%nat; [|apply accounted_nil].
    pose proof (sample_loop_accounted
                  (fun x p s => analyze_structure x p (depth + 1) max_depth s)
                  (fun x p s => trace x p (depth + 1) max_depth s)
                  path l 0 (Nat.min 3 (length l)) seen) as Hacc.
    destruct (sample_loop _ _ _ _ _ _) as [samples seen']. simpl in *.
    destruct (all_same samples); simpl; apply Hacc;
      (eapply Forall_impl; [exact IH|]; intros x Hx p s; apply Hx).
  - pose proof (property_loop_accounted
                  (fun x p s => analyze_structure x p (depth + 1) max_depth s)
                  (fun x p s => trace x p (depth + 1) max_depth s)
                  path kvs [] seen) as Hacc.
    destruct (property_loop _ _ _ _ _) as [props seen']. simpl in *.
    apply Hacc. eapply Forall_impl; [exact IH|]. intros x Hx p s. apply Hx.
Qed.

(** ** Object keys are analysed at most once (C6) *)

Lemma dict_get_set_ne {A} k k' (a : A) d :
  k <> k' -> dict_get k (dict_set k' a d) = dict_get k d.
Proof.
  intros Hne. induction d as [|[k0 a0] d IH]; simpl.
  - by rewrite (proj2 (String.eqb_neq k k') Hne).
  - destruct (String.eqb_spec k' k0) as [->|Hne0]; simpl.
    + by rewrite !(proj2 (String.eqb_neq k k0) Hne).
    + by rewrite IH.
Qed.

Section PropertyLoopSteps.
Variable rec : value -> string -> paths -> descriptor * paths.

Lemma property_loop_app path pre post props seen :
  property_loop rec path (pre ++ post) props seen
  = property_loop rec path post
      (property_loop rec path pre props seen).1
      (property_loop rec path pre props seen).2.
Proof.
  revert props seen. induction pre as [|[k v] pre IH]; intros props seen;
    simpl; [done|].
  destruct (decide (child_path path k ∈ seen)); [apply IH|].
  destruct (rec v _ _) as [d seen1]. apply IH.
Qed.

Lemma property_loop_get_other path kvs props seen k :
  k ∉ dict_keys kvs ->
  dict_get k (property_loop rec path kvs props seen).1 = dict_get k props.
Proof.
  revert props seen. induction kvs as [|[k' v] kvs IH]; intros props seen;
    simpl; [done|].
  rewrite not_elem_of_cons. intros [Hne Hnin].
  destruct (decide (child_path path k' ∈ seen)); [by apply IH|].
  destruct (rec v _ _) as [d seen1]. rewrite IH by done.
  by apply dict_get_set_ne.
Qed.

Lemma property_loop_mono path kvs props seen :
  (forall v p s, s ⊆ (rec v p s).2) ->
  seen ⊆ (property_loop rec path kvs props seen).2.
Proof.
  intros Hmono. revert props seen.
  induction kvs as [|[k v] kvs IH]; intros props seen; simpl; [done|].
  destruct (decide (child_path path k ∈ seen)); [apply IH|].
  pose proof (Hmono v (child_path path k) ({[child_path path k]} ∪ seen)) as Hv.
  destruct (rec v _ _) as [d seen1]. simpl in Hv.
  etrans; [|apply IH]. set_solver.
Qed.

(** What the loop does at the key [k], reached with [seen_k]. *)
Lemma property_loop_at_key path pre k v post seen :
  NoDup (dict_keys (pre ++ (k, v) :: post)) ->
  (forall v p s, s ⊆ (rec v p s).2) ->
  let seen_k := (property_loop rec path pre [] seen).2 in
  let cp := child_path path k in
  let run := property_loop rec path (pre ++ (k, v) :: post) [] seen in
  (cp ∉ seen_k ->
     dict_get k run.1 = Some (rec v cp ({[cp]} ∪ seen_k)).1 /\ cp ∈ run.2)
  /\ (cp ∈ seen_k -> dict_get k run.1 = None).
Proof.
  intros Hnd Hmono seen_k cp run.
  unfold dict_keys in Hnd. rewrite map_app in Hnd. simpl in Hnd.
  apply NoDup_app in Hnd as (_ & Hpre & Hnd).
  apply NoDup_cons in Hnd as [Hpost _].
  assert (dict_get k (property_loop rec path pre [] seen).1 = None) as Hk.
  { rewrite property_loop_get_other; [done|].
    intros Hin. apply (Hpre k Hin). rewrite elem_of_cons. by left. }
  subst run. rewrite property_loop_app. fold seen_k. simpl. fold cp.
  split.
  - intros Hnin. rewrite decide_False by done.
    destruct (rec v cp ({[cp]} ∪ seen_k)) as [d seen1] eqn:Hrec. simpl.
    split.
    + rewrite property_loop_get_other by done. apply dict_get_set_eq.
    + apply (property_loop_mono path post _ seen1 Hmono).
      pose proof (Hmono v cp ({[cp]} ∪ seen_k)) as Hsub.
      rewrite Hrec in Hsub. simpl in Hsub. set_solver.
  - intros Hin. rewrite decide_True by done.
    by rewrite property_loop_get_other.
Qed.
End PropertyLoopSteps.

Lemma analyze_structure_mono v path depth max_depth seen :
  seen ⊆ (analyze_structure v path depth max_depth seen).2.
Proof. eapply accounted_subseteq, analyze_structure_accounted. Qed.

(** C6 (amended): in one run, started from any [seen_paths] and so from a
    fresh one, no child path of an object key is marked and analysed twice:
    the [Key] events carry pairwise distinct paths, each absent from
    [seen_paths] before the run and present after it, and a key is passed
    over only on a path that is in [seen_paths].  At a key [k] of an object,
    reached with [seen_k]: when the child path is not in [seen_k], it is
    added and the value's analysis at [depth + 1] is stored under [k]; when
    it is, ["properties"] has no entry for [k]. *)
Theorem C6_key_paths_analyzed_once v path depth max_depth seen :
  let tr := trace v path depth max_depth seen in
  let seen' := (analyze_structure v path depth max_depth seen).2 in
  NoDup (key_calls tr)
  /\ (forall q, q ∈ key_calls tr -> (q ∉ seen) /\ (q ∈ seen'))
  /\ (forall q, q ∈ skips tr -> q ∈ seen \/ q ∈ key_calls tr)
  /\ (forall pre k x post,
        v = VDict (pre ++ (k, x) :: post) ->
        NoDup (dict_keys (pre ++ (k, x) :: post)) ->
        depth <= max_depth ->
        let rec := fun v p s => analyze_structure v p (depth + 1) max_depth s in
        let seen_k := (property_loop rec path pre [] seen).2 in
        let cp := child_path path k in
        exists props,
          d_properties (analyze_structure v path depth max_depth seen).1
          = Some props
          /\ (cp ∉ seen_k ->
              dict_get k props = Some (rec x cp ({[cp]} ∪ seen_k)).1
              /\ cp ∈ seen')
          /\ (cp ∈ seen_k -> dict_get k props = None)).
Proof.
  intros tr seen'.
  destruct (analyze_structure_accounted v path depth max_depth seen)
    as (Hseen & Hnd & Hout & Hsk).
  fold tr seen' in Hseen, Hnd, Hout, Hsk.
  split; [done|]. split; [|split].
  - intros q Hq. split; [by apply Hout|]. rewrite Hseen. set_solver.
  - intros q Hq. apply Hsk in Hq. rewrite Hseen in Hq. set_solver.
  - intros pre k x post -> Hkeys Hle rec seen_k cp.
    subst seen'. rewrite analyze_structure_dict by done. cbv zeta.
    eexists. split; [reflexivity|].
    apply (property_loop_at_key rec path pre k x post seen Hkeys).
    intros v p s. apply analyze_structure_mono.
Qed.

Lemma C6_key_paths_analyzed_once_witness :
  exists props,
    d_properties
      (analyze_structure (VDict [("a", VInt 1); ("b", VInt 2)])
         "root" 0 5 {["root.b"]}).1 = Some props
    /\ dict_get "b" props = None.
Proof.
  destruct (C6_key_paths_analyzed_once (VDict [("a", VInt 1); ("b", VInt 2)])
              "root" 0 5 {["root.b"]}) as (_ & _ & _ & H).
  destruct (H [("a", VInt 1)] "b" (VInt 2) []) as (props & Hp & _ & Hskip).
  - reflexivity.
  - apply (bool_decide_unpack _). by vm_compute.
  - lia.
  - exists props. split; [exact Hp|]. apply Hskip.
    apply (bool_decide_unpack _). by vm_compute.
Defined.

(** C6 as stated fails: in [{"a": [1], "a[0]": 2}] the path ["root.a[0]"] is
    analysed twice, once as element 0 of the array under ["a"] and once as
    the value of the key ["a[0]"]. *)
Lemma C6_every_path_analyzed_once_counterexample :
  ~ every_path_analyzed_once
      (VDict [("a", VList [VInt 1]); ("a[0]", VInt 2)]) 5.
Proof.
  unfold every_path_analyzed_once. intros Hnd.
  assert (calls (VDict [("a", VList [VInt 1]); ("a[0]", VInt 2)]) "root" 0 5 ∅
          = ["root"; "root.a"; "root.a[0]"; "root.a[0]"]) as Heq
    by (by vm_compute).
  rewrite Heq in Hnd.
  apply NoDup_cons in Hnd as [_ Hnd]. apply NoDup_cons in Hnd as [_ Hnd].
  apply NoDup_cons in Hnd as [Hnin _]. apply Hnin. rewrite elem_of_cons. by left.
Qed.

(** ** Paths as strings *)

Lemma string_app_assoc (s1 s2 s3 : string) :
  (s1 +:+ s2) +:+ s3 = s1 +:+ (s2 +:+ s3).
Proof.
  induction s1 as [|a s1 IH]; [done|].
  change (String a ((s1 +:+ s2) +:+ s3) = String a (s1 +:+ (s2 +:+ s3))).
  by rewrite IH.
Qed.

Lemma string_app_cons (a : ascii) (s1 s2 : string) :
  String a s1 +:+ s2 = String a (s1 +:+ s2).
Proof. done. Qed.

Lemma string_app_nil_l (s : string) : "" +:+ s = s.
Proof. done. Qed.

Lemma string_app_neq (p : string) (a : ascii) (rest : string) :
  p <> p +:+ String a rest.
Proof.
  intros Heq. apply (f_equal String.length) in Heq.
  rewrite string_length_app in Heq. simpl in Heq. lia.
Qed.

Lemma delimited_extension_irrefl p : ~ delimited_extension p p.
Proof. intros (a & rest & _ & Heq). by apply string_app_neq in Heq. Qed.

Lemma delimited_extension_trans_below p t q :
  delimited_extension p t -> below t q -> delimited_extension p q.
Proof.
  intros (a & rest & Ha & ->) [->|(b & rest' & Hb & ->)].
  - by exists a, rest.
  - exists a, (rest +:+ String b rest'). split; [done|].
    by rewrite string_app_assoc.
Qed.

Lemma child_path_extends path k : delimited_extension path (child_path path k).
Proof. by exists "."%char, k. Qed.

Lemma item_path_extends path i : delimited_extension path (item_path path i).
Proof. by exists "["%char, (pretty i +:+ "]"). Qed.

(** A plain key ends where the first delimiter stands. *)
Lemma plain_key_cut k1 k2 t1 t2 :
  plain_key k1 = true -> plain_key k2 = true ->
  below "" t1 -> below "" t2 ->
  k1 +:+ t1 = k2 +:+ t2 -> k1 = k2.
Proof.
  revert k2. induction k1 as [|a k1 IH]; intros [|b k2] Hk1 Hk2 Ht1 Ht2 Heq.
  - done.
  - exfalso. rewrite string_app_nil_l, string_app_cons in Heq.
    simpl in Hk2. apply andb_true_iff in Hk2 as [Hb _].
    destruct Ht1 as [->|(c & r & Hc & ->)]; [done|].
    rewrite string_app_nil_l in Heq. injection Heq as -> _.
    by rewrite Hc in Hb.
  - exfalso. rewrite string_app_nil_l, string_app_cons in Heq.
    simpl in Hk1. apply andb_true_iff in Hk1 as [Ha _].
    destruct Ht2 as [->|(c & r & Hc & ->)]; [done|].
    rewrite string_app_nil_l in Heq. injection Heq as <- _.
    by rewrite Hc in Ha.
  - rewrite !string_app_cons in Heq. injection Heq as -> Heq.
    simpl in Hk1, Hk2.
    apply andb_true_iff in Hk1 as [_ Hk1]. apply andb_true_iff in Hk2 as [_ Hk2].
    f_equal. by apply (IH k2).
Qed.

Lemma below_as_tail p q : below p q -> exists t, below "" t /\ q = p +:+ t.
Proof.
  intros [->|(a & rest & Ha & ->)].
  - exists "". split; [by left|]. induction p as [|c p IH]; [done|].
    rewrite string_app_cons. by rewrite <- IH.
  - exists (String a rest). split; [|done]. right. by exists a, rest.
Qed.

(** Two plain keys of one object whose child paths have a common path
    below them are the same key. *)
Lemma child_path_below_inj path k1 k2 q :
  plain_key k1 = true -> plain_key k2 = true ->
  below (child_path path k1) q -> below (child_path path k2) q -> k1 = k2.
Proof.
  intros Hk1 Hk2 (t1 & Ht1 & ->)%below_as_tail (t2 & Ht2 & Heq)%below_as_tail.
  unfold child_path in Heq. rewrite !string_app_assoc in Heq.
  apply String.app_inj in Heq. rewrite !string_app_cons in Heq.
  injection Heq as Heq. rewrite !string_app_nil_l in Heq.
  by apply (plain_key_cut k1 k2 t1 t2).
Qed.

Lemma pretty_small :
  pretty 0%nat = "0" /\ pretty 1%nat = "1" /\ pretty 2%nat = "2".
Proof. by vm_compute. Qed.

(** Among the three sampled indices, item paths with a common extension
    are the same. *)
Lemma item_path_extension_inj path i j q :
  (i < 3)%nat -> (j < 3)%nat ->
  delimited_extension (item_path path i) q ->
  delimited_extension (item_path path j) q -> i = j.
Proof.
  intros Hi Hj (a & r & _ & ->) (b & r' & _ & Heq).
  unfold item_path in Heq. rewrite !string_app_assoc in Heq.
  apply String.app_inj in Heq.
  destruct pretty_small as (H0 & H1 & H2).
  destruct i as [|[|[|i]]], j as [|[|[|j]]]; try lia;
    rewrite ?H0, ?H1, ?H2 in Heq; by inversion Heq.
Qed.

(** ** Only object keys are recorded (C9) *)

Lemma called_app t1 t2 : called (t1 ++ t2) = called t1 ++ called t2.
Proof. unfold called. by rewrite List.filter_app, map_app. Qed.

Lemma on_child_path_weaken path path' tr tr' e :
  (path ∈ called tr' \/ path = path') ->
  (forall p, p ∈ called tr -> p ∈ called tr') ->
  on_child_path path tr e -> on_child_path path' tr' e.
Proof.
  intros Hpath Hincl (parent & key & Heq & [Hp|Hin]);
    exists parent, key; (split; [done|]).
  - subst parent. destruct Hpath as [?| ->]; [by right | by left].
  - right. by apply Hincl.
Qed.

Section TraceShape.
Variable rec : value -> string -> paths -> descriptor * paths.
Variable rec_trace : value -> string -> paths -> list event.

Lemma sample_trace_items path xs i n seen k :
  (k < Nat.min n (length xs))%nat ->
  Item (item_path path (i + k)) ∈ sample_trace rec rec_trace path xs i n seen.
Proof.
  revert xs i n seen. induction k as [|k IH]; intros [|x xs] i [|n] seen Hk;
    simpl in *; try lia.
  - rewrite Nat.add_0_r, elem_of_cons. by left.
  - rewrite elem_of_cons, elem_of_app. right. right.
    replace (i + S k)%nat with (S i + k)%nat by lia. apply IH. lia.
Qed.

Lemma sample_trace_on_child_path path xs i n seen e :
  Forall (fun x => forall p s e, e ∈ rec_trace x p s -> is_item e = false ->
                                 on_child_path p (rec_trace x p s) e) xs ->
  e ∈ sample_trace rec rec_trace path xs i n seen -> is_item e = false ->
  on_child_path path (sample_trace rec rec_trace path xs i n seen) e.
Proof.
  intros Hxs. revert i n seen.
  induction Hxs as [|x xs Hx _ IH]; intros i [|n] seen; simpl;
    try (by intros ?%elem_of_nil).
  rewrite elem_of_cons, elem_of_app. intros [->|[He|He]] Hne; [done| |].
  - eapply on_child_path_weaken; [| |by apply (Hx _ _ e He)].
    + left. change (called (Item ?p :: ?t)) with (p :: called t).
      rewrite elem_of_cons. by left.
    + intros p Hp. change (called (Item ?q :: ?t)) with (q :: called t).
      rewrite called_app, elem_of_cons, elem_of_app. auto.
  - eapply on_child_path_weaken; [| |by apply (IH _ _ _ He)].
    + by right.
    + intros p Hp. change (called (Item ?q :: ?t)) with (q :: called t).
      rewrite called_app, elem_of_cons, elem_of_app. auto.
Qed.

Lemma property_trace_on_child_path path kvs seen e :
  Forall (fun kv => forall p s e, e ∈ rec_trace kv.2 p s -> is_item e = false ->
                                  on_child_path p (rec_trace kv.2 p s) e) kvs ->
  e ∈ property_trace rec rec_trace path kvs seen -> is_item e = false ->
  on_child_path path (property_trace rec rec_trace path kvs seen) e.
Proof.
  intros Hkvs. revert seen.
  induction Hkvs as [|[k v] kvs Hv _ IH]; intros seen; simpl;
    [by intros ?%elem_of_nil|].
  destruct (decide (child_path path k ∈ seen)).
  - rewrite elem_of_cons. intros [->|He] Hne.
    + exists path, k. split; [done | by left].
    + eapply on_child_path_weaken; [| |by apply (IH _ He)]; [by right|done].
  - rewrite elem_of_cons, elem_of_app. intros [->|[He|He]] Hne.
    + exists path, k. split; [done | by left].
    + eapply on_child_path_weaken; [| |by apply (Hv _ _ e He)].
      * left. change (called (Key ?p :: ?t)) with (p :: called t).
        rewrite elem_of_cons. by left.
      * intros p Hp. change (called (Key ?q :: ?t)) with (q :: called t).
        rewrite called_app, elem_of_cons, elem_of_app. auto.
    + eapply on_child_path_weaken; [| |by apply (IH _ He)].
      * by right.
      * intros p Hp. change (called (Key ?q :: ?t)) with (q :: called t).
        rewrite called_app, elem_of_cons, elem_of_app. auto.
Qed.
End TraceShape.

Lemma trace_on_child_path v path depth max_depth seen e :
  e ∈ trace v path depth max_depth seen -> is_item e = false ->
  on_child_path path (trace v path depth max_depth seen) e.
Proof.
  revert path depth max_depth seen e.
  induction v as [| | | | |l IH|kvs IH|] using value_nested_ind;
    intros path depth max_depth seen e;
    (destruct (Z_lt_le_dec max_depth depth) as [Hlt|Hle];
     [ rewrite trace_truncated by done; by intros ?%elem_of_nil
     | rewrite trace_unfold by done ]);
    try (by intros ?%elem_of_nil).
  - destruct (0 <? length l)%nat; [|by intros ?%elem_of_nil].
    apply sample_trace_on_child_path.
    eapply Forall_impl; [exact IH|]. intros x Hx p s e'. apply Hx.
  - apply property_trace_on_child_path.
    eapply Forall_impl; [exact IH|]. intros x Hx p s e'. apply Hx.
Qed.

Section TraceExtends.
Variable rec : value -> string -> paths -> descriptor * paths.
Variable rec_trace : value -> string -> paths -> list event.

Lemma sample_trace_under_item path xs i n seen e :
  Forall (fun x => forall p s e, e ∈ rec_trace x p s ->
                                 delimited_extension p (event_path e)) xs ->
  e ∈ sample_trace rec rec_trace path xs i n seen ->
  under_item path i (i + n) e.
Proof.
  intros Hxs. revert i n seen.
  induction Hxs as [|x xs Hx _ IH]; intros i [|n] seen; simpl;
    try (by intros ?%elem_of_nil).
  rewrite elem_of_cons, elem_of_app. intros [->|[He|He]].
  - exists i. split; [lia | by left].
  - exists i. split; [lia|]. right. by apply (Hx _ _ e He).
  - destruct (IH _ _ _ He) as (j & Hj & Hcase). exists j. split; [lia|done].
Qed.

Lemma property_trace_extends path kvs seen e :
  Forall (fun kv => forall p s e, e ∈ rec_trace kv.2 p s ->
                                  delimited_extension p (event_path e)) kvs ->
  e ∈ property_trace rec rec_trace path kvs seen ->
  delimited_extension path (event_path e).
Proof.
  intros Hkvs. revert seen.
  induction Hkvs as [|[k v] kvs Hv _ IH]; intros seen; simpl;
    [by intros ?%elem_of_nil|].
  destruct (decide (child_path path k ∈ seen)).
  - rewrite elem_of_cons. intros [->|He]; [apply child_path_extends|].
    by apply (IH _ He).
  - rewrite elem_of_cons, elem_of_app. intros [->|[He|He]].
    + apply child_path_extends.
    + eapply delimited_extension_trans_below; [apply child_path_extends|].
      right. by apply (Hv _ _ e He).
    + by apply (IH _ He).
Qed.
End TraceExtends.

Lemma under_item_extends path lo hi e :
  under_item path lo hi e -> delimited_extension path (event_path e).
Proof.
  intros (j & _ & [->|Hext]); [apply item_path_extends|].
  eapply delimited_extension_trans_below; [apply item_path_extends|by right].
Qed.

(** Every event of a run is on a path that extends the one the run was
    started on. *)
Lemma trace_extends v path depth max_depth seen e :
  e ∈ trace v path depth max_depth seen ->
  delimited_extension path (event_path e).
Proof.
  revert path depth max_depth seen e.
  induction v as [| | | | |l IH|kvs IH|] using value_nested_ind;
    intros path depth max_depth seen e;
    (destruct (Z_lt_le_dec max_depth depth) as [Hlt|Hle];
     [ rewrite trace_truncated by done; by intros ?%elem_of_nil
     | rewrite trace_unfold by done ]);
    try (by intros ?%elem_of_nil).
  - destruct (0 <? length l)%nat; [|by intros ?%elem_of_nil].
    intros He. eapply under_item_extends, sample_trace_under_item; [|exact He].
    eapply Forall_impl; [exact IH|]. intros x Hx p s e'. apply Hx.
  - apply property_trace_extends.
    eapply Forall_impl; [exact IH|]. intros x Hx p s e'. apply Hx.
Qed.

Lemma trace_list_under_item l path depth max_depth seen e :
  e ∈ trace (VList l) path depth max_depth seen -> under_item path 0 3 e.
Proof.
  destruct (Z_lt_le_dec max_depth depth) as [Hlt|Hle].
  { rewrite trace_truncated by done. by intros ?%elem_of_nil. }
  rewrite trace_unfold by done.
  destruct (0 <? length l)%nat; [|by intros ?%elem_of_nil].
  intros He. apply sample_trace_under_item in He as (j & Hj & Hcase).
  - exists j. split; [lia | done].
  - apply Forall_forall. intros x _ p s e'. apply trace_extends.
Qed.

Lemma item_path_not_extension path i j :
  (i < 3)%nat -> (j < 3)%nat ->
  ~ delimited_extension (item_path path j) (item_path path i).
Proof.
  intros Hi Hj (a & r & _ & Heq).
  unfold item_path in Heq. rewrite !string_app_assoc in Heq.
  apply String.app_inj in Heq.
  destruct pretty_small as (H0 & H1 & H2).
  destruct i as [|[|[|i]]], j as [|[|[|j]]]; try lia;
    rewrite ?H0, ?H1, ?H2 in Heq; by inversion Heq.
Qed.

Lemma key_calls_event q tr :
  q ∈ key_calls tr -> exists e, e ∈ tr /\ is_key e = true /\ event_path e = q.
Proof.
  unfold key_calls. intros (e & -> & He)%list_elem_of_fmap.
  apply list_elem_of_In, List.filter_In in He as [He Hk].
  exists e. split; [by apply list_elem_of_In | done].
Qed.

(** C9: the paths a run adds to [seen_paths] are exactly those of its [Key]
    events; every [Key] and every [Skip] event is on a child path
    [parent.key] of a path the run analysed, so nothing else is recorded or
    passed over; analysing an array leaves the bracketed path of a sampled
    element in [seen_paths] only if it was there before; and within the
    depth limit each of the first [min(3, len)] elements of an array is
    analysed whatever [seen_paths] holds.  In [{"a[0]": 2, "a": [1]}] the
    path ["root.a[0]"] is recorded for the key ["a[0]"] and element 0 of the
    array under ["a"] is analysed on that same path all the same, leaving no
    trace of its own in [seen_paths]. *)
Theorem C9_only_key_paths_recorded v path depth max_depth seen :
  let tr := trace v path depth max_depth seen in
  let seen' := (analyze_structure v path depth max_depth seen).2 in
  seen' = seen ∪ list_to_set (key_calls tr)
  /\ (forall e, e ∈ tr -> is_item e = false -> on_child_path path tr e)
  /\ (forall l i, v = VList l -> (i < 3)%nat ->
        item_path path i ∈ seen' -> item_path path i ∈ seen)
  /\ (forall l i, v = VList l -> depth <= max_depth ->
        (i < Nat.min 3 (length l))%nat -> Item (item_path path i) ∈ tr)
  /\ trace (VDict [("a[0]", VInt 2); ("a", VList [VInt 1])]) "root" 0 5 ∅
     = [Key "root.a[0]"; Key "root.a"; Item "root.a[0]"]
  /\ analyze_structure (VList [VInt 1]) "root" 0 5 ∅
     = (set_items (ItemsOne (new_result "integer"))
          (set_length 1 (new_result "array")), ∅).
Proof.
  intros tr seen'.
  destruct (analyze_structure_accounted v path depth max_depth seen)
    as (Hseen & _).
  fold tr seen' in Hseen.
  split; [|split; [|split; [|split; [|split]]]].
  - done.
  - intros e. apply trace_on_child_path.
  - intros l i -> Hi. rewrite Hseen, elem_of_union, elem_of_list_to_set.
    intros [?|Hin]; [done|]. exfalso.
    apply key_calls_event in Hin as (e & He & Hk & Heq).
    apply trace_list_under_item in He as (j & Hj & [->|Hext]); [done|].
    rewrite Heq in Hext. apply (item_path_not_extension path i j); (lia || done).
  - intros l i -> Hle Hi. subst tr. rewrite trace_unfold by done.
    destruct l as [|x l]; [simpl in Hi; lia|].
    change (0 <? length (x :: l))%nat with true. cbv iota.
    apply (sample_trace_items _ _ path (x :: l) 0 _ seen i).
    rewrite Nat.min_l; [done|]. apply Nat.le_min_r.
  - by vm_compute.
  - by vm_compute.
Qed.

Lemma C9_only_key_paths_recorded_witness :
  Item "root.a[0]"
  ∈ trace (VList [VInt 1]) "root.a" 1 5 {["root.a[0]"; "root.a"]}.
Proof.
  destruct (C9_only_key_paths_recorded (VList [VInt 1]) "root.a" 1 5
              {["root.a[0]"; "root.a"]}) as (_ & _ & _ & H & _).
  apply (H [VInt 1] 0%nat); [reflexivity | lia | simpl; lia].
Defined.

(** ** Suppression on conforming input (C7) *)

Lemma all_objects_list q l :
  all_objects q (VList l) = true -> Forall (fun x => all_objects q x = true) l.
Proof.
  simpl. intros H. apply Forall_forall. intros x Hx.
  rewrite forallb_forall in H. apply H. by apply list_elem_of_In.
Qed.

Lemma all_objects_dict q kvs :
  all_objects q (VDict kvs) = true ->
  q (dict_keys kvs) = true
  /\ Forall (fun kv => all_objects q kv.2 = true) kvs.
Proof.
  simpl. intros [Hq H]%andb_true_iff. split; [done|].
  apply Forall_forall. intros x Hx.
  rewrite forallb_forall in H. apply H. by apply list_elem_of_In.
Qed.

Section NoSkips.
Variable rec : value -> string -> paths -> descriptor * paths.
Variable rec_trace : value -> string -> paths -> list event.

Let clean_run := clean_run rec rec_trace.

Lemma sample_loop_no_skips path xs i n seen :
  Forall clean_run xs ->
  (i + n <= 3)%nat ->
  (forall q j, q ∈ seen -> (i <= j < 3)%nat ->
               ~ delimited_extension (item_path path j) q) ->
  skips (sample_trace rec rec_trace path xs i n seen) = []
  /\ forall q, q ∈ (sample_loop rec path xs i n seen).2 ->
       q ∈ seen \/ exists j, (j < 3)%nat
                             /\ delimited_extension (item_path path j) q.
Proof.
  intros Hxs. revert i n seen.
  induction Hxs as [|x xs Hx _ IH]; intros i [|n] seen Hin Hpre; simpl;
    try (split; [done | by left]).
  assert (fresh_for (item_path path i) seen) as Hfresh.
  { intros q Hq. apply Hpre; [done | lia]. }
  destruct (Hx (item_path path i) seen Hfresh) as [Hsk Hpost].
  destruct (rec x (item_path path i) seen) as [d seen1]. simpl in *.
  destruct (IH (S i) n seen1) as [Hsk' Hpost']; [lia| |].
  { intros q j Hq Hj Hext. destruct (Hpost q Hq) as [Hq'|Hq'].
    - apply (Hpre q j Hq'); [lia | done].
    - assert (i = j) by (apply (item_path_extension_inj path i j q); (lia || done)).
      lia. }
  destruct (sample_loop rec path xs (S i) n seen1) as [ds seen2]. simpl in *.
  split.
  - change (skips (Item ?p :: ?t)) with (skips t).
    by rewrite skips_app, Hsk, Hsk'.
  - intros q Hq. destruct (Hpost' q Hq) as [Hq'|Hq']; [|by right].
    destruct (Hpost q Hq') as [?|?]; [by left|].
    right. exists i. split; [lia | done].
Qed.

Lemma property_loop_no_skips path kvs props seen :
  Forall (fun kv => clean_run kv.2) kvs ->
  NoDup (dict_keys kvs) ->
  Forall (fun k => plain_key k = true) (dict_keys kvs) ->
  (forall k, k ∈ dict_keys kvs -> k ∉ dict_keys props) ->
  (forall q k, q ∈ seen -> k ∈ dict_keys kvs ->
               ~ below (child_path path k) q) ->
  skips (property_trace rec rec_trace path kvs seen) = []
  /\ dict_keys (property_loop rec path kvs props seen).1
     = dict_keys props ++ dict_keys kvs
  /\ forall q, q ∈ (property_loop rec path kvs props seen).2 ->
       q ∈ seen \/ exists k, k ∈ dict_keys kvs
                             /\ below (child_path path k) q.
Proof.
  intros Hkvs. revert props seen.
  induction Hkvs as [|[k v] kvs Hv _ IH]; intros props seen Hnd Hplain Hnew Hpre;
    simpl.
  { split; [done|]. split; [by rewrite app_nil_r | by left]. }
  change (dict_keys ((k, v) :: kvs)) with (k :: dict_keys kvs) in *.
  simpl in Hv.
  apply NoDup_cons in Hnd as [Hk Hnd].
  apply Forall_cons in Hplain as [Hpk Hplain].
  assert (child_path path k ∉ seen) as Hcp.
  { intros Hin.
    apply (Hpre (child_path path k) k Hin); [rewrite elem_of_cons; by left|].
    by left. }
  rewrite !decide_False by done.
  lazymatch goal with
  | |- context [rec v ?p ?s] =>
      assert (fresh_for p s) as Hfresh;
      [| pose proof (Hv p s Hfresh) as Hrun; revert Hrun;
         destruct (rec v p s) as [d seen1]; intros [Hsk Hpost] ]
  end.
  { intros q [->%elem_of_singleton|Hq]%elem_of_union.
    - apply delimited_extension_irrefl.
    - intros Hext. apply (Hpre q k Hq); [rewrite elem_of_cons; by left|].
      by right. }
  simpl in *.
  assert (k ∉ dict_keys props) as Hkp.
  { apply Hnew. rewrite elem_of_cons. by left. }
  destruct (IH (dict_set k d props) seen1 Hnd Hplain) as (Hsk' & Hkeys & Hpost').
  { intros k' Hk'. rewrite dict_keys_set_new by done.
    rewrite elem_of_app, list_elem_of_singleton. intros [Hin| ->]; [|done].
    apply (Hnew k'); [|done]. rewrite elem_of_cons. by right. }
  { intros q k' Hq Hk' Hbelow.
    assert (below (child_path path k) q -> False) as Hno.
    { intros Hb. assert (k = k') as ->; [|done].
      apply (child_path_below_inj path k k' q); try done.
      rewrite Forall_forall in Hplain. by apply Hplain. }
    destruct (Hpost q Hq) as [[->%elem_of_singleton|Hq']%elem_of_union|Hext].
    - apply Hno. by left.
    - apply (Hpre q k' Hq'); [|done]. rewrite elem_of_cons. by right.
    - apply Hno. by right. }
  split; [|split].
  - change (skips (Key ?p :: ?t)) with (skips t).
    by rewrite skips_app, Hsk, Hsk'.
  - rewrite Hkeys, dict_keys_set_new by done. by rewrite <- app_assoc.
  - intros q Hq. destruct (Hpost' q Hq) as [Hq'|(k' & Hk' & Hb)].
    + destruct (Hpost q Hq') as [[->%elem_of_singleton|?]%elem_of_union|Hext].
      * right. exists k. split; [rewrite elem_of_cons; by left | by left].
      * by left.
      * right. exists k. split; [rewrite elem_of_cons; by left | by right].
    + right. exists k'. split; [rewrite elem_of_cons; by right | done].
Qed.
End NoSkips.

Lemma analyze_structure_no_skips v :
  unique_object_keys v = true -> plain_keys v = true ->
  forall path depth max_depth seen,
    fresh_for path seen ->
    never_suppressed v path depth max_depth seen
    /\ forall q, q ∈ (analyze_structure v path depth max_depth seen).2 ->
         q ∈ seen \/ delimited_extension path q.
Proof.
  unfold never_suppressed.
  induction v as [| | | | |l IH|kvs IH|] using value_nested_ind;
    intros Huniq Hplain path depth max_depth seen Hfresh;
    (destruct (Z_lt_le_dec max_depth depth) as [Hlt|Hle];
     [ rewrite analyze_structure_truncated, trace_truncated by done;
       split; [split; [done | intros; lia] | by left]
     | rewrite analyze_structure_unfold, trace_unfold by done; simpl ]);
    try (split; [split; [done | by intros] | by left]).
  - destruct (0 <? length l)%nat;
      [|split; [split; [done | by intros] | by left]].
    apply all_objects_list in Huniq, Hplain.
    destruct (sample_loop_no_skips
                (fun x p s => analyze_structure x p (depth + 1) max_depth s)
                (fun x p s => trace x p (depth + 1) max_depth s)
                path l 0 (Nat.min 3 (length l)) seen) as [Hsk Hpost].
    { eapply Forall_impl;
        [apply Forall_and; split;
           [exact IH | apply Forall_and; split; [exact Huniq|exact Hplain]]|].
      intros x (Hx & Hu & Hp) p s Hf.
      destruct (Hx Hu Hp p (depth + 1) max_depth s Hf) as [[Hs _] Hq].
      by split. }
    { lia. }
    { intros q j Hq _ Hext. apply (Hfresh q Hq).
      eapply delimited_extension_trans_below;
        [apply item_path_extends | right; exact Hext]. }
    destruct (sample_loop _ _ _ _ _ _) as [samples seen']. simpl in *.
    assert (forall q, q ∈ seen' -> q ∈ seen \/ delimited_extension path q)
      as Hpost2.
    { intros q Hq. destruct (Hpost q Hq) as [?|(j & _ & Hext)]; [by left|].
      right. eapply delimited_extension_trans_below;
        [apply item_path_extends | right; exact Hext]. }
    destruct (all_same samples); simpl; (split; [split; [done|by intros]|done]).
  - apply all_objects_dict in Huniq as [Hnd Huniq].
    apply all_objects_dict in Hplain as [Hpk Hplain].
    apply bool_decide_eq_true in Hnd.
    destruct (property_loop_no_skips
                (fun x p s => analyze_structure x p (depth + 1) max_depth s)
                (fun x p s => trace x p (depth + 1) max_depth s)
                path kvs [] seen) as (Hsk & Hkeys & Hpost); try done.
    { eapply Forall_impl;
        [apply Forall_and; split;
           [exact IH | apply Forall_and; split; [exact Huniq|exact Hplain]]|].
      intros x (Hx & Hu & Hp) p s Hf.
      destruct (Hx Hu Hp p (depth + 1) max_depth s Hf) as [[Hs _] Hq].
      by split. }
    { apply Forall_forall. intros k Hk. rewrite forallb_forall in Hpk.
      apply Hpk. by apply list_elem_of_In. }
    { intros k _. apply not_elem_of_nil. }
    { intros q k Hq _ Hb. apply (Hfresh q Hq).
      eapply delimited_extension_trans_below;
        [apply child_path_extends | exact Hb]. }
    destruct (property_loop _ _ _ _ _) as [props seen']. simpl in *.
    split; [split; [done|]|].
    + intros kvs' [= <-] _. by exists props.
    + intros q Hq. destruct (Hpost q Hq) as [?|(k & _ & Hb)]; [by left|].
      right. eapply delimited_extension_trans_below;
        [apply child_path_extends | exact Hb].
Qed.

Lemma fresh_for_empty path : fresh_for path ∅.
Proof. intros q Hq. by apply not_elem_of_empty in Hq. Qed.

(** C7 (amended): on a conforming JSON value none of whose keys contains
    ["."] or ["["], a run started on any path with a [seen_paths] holding no
    extension of that path, and so a run started with a fresh [seen_paths],
    never takes the suppression branch, and an object analysed within the
    depth limit gets an entry for each of its keys, in their order. *)
Theorem C7_no_suppression_on_plain_keys v path depth max_depth seen :
  conforming v = true -> plain_keys v = true -> fresh_for path seen ->
  never_suppressed v path depth max_depth seen.
Proof.
  intros [_ Huniq]%andb_true_iff Hplain Hfresh.
  by destruct (analyze_structure_no_skips v Huniq Hplain
                 path depth max_depth seen Hfresh).
Qed.

Lemma C7_no_suppression_on_plain_keys_witness :
  never_suppressed
    (VDict [("a", VDict [("b", VInt 1)]); ("ab", VList [VDict [("b", VNone)]])])
    "root" 0 5 ∅.
Proof.
  apply C7_no_suppression_on_plain_keys;
    [by vm_compute | by vm_compute | apply fresh_for_empty].
Defined.

(** C7 as stated fails: [{"a": {"b": 1}, "a.b": 2}] is conforming, yet the
    key ["a.b"] is passed over, its child path ["root.a.b"] having been
    recorded for the key ["b"] of the object under ["a"]. *)
Lemma C7_never_suppressed_counterexample :
  conforming (VDict [("a", VDict [("b", VInt 1)]); ("a.b", VInt 2)]) = true
  /\ ~ never_suppressed
         (VDict [("a", VDict [("b", VInt 1)]); ("a.b", VInt 2)]) "root" 0 5 ∅.
Proof.
  split; [by vm_compute|]. intros [Hsk _]. vm_compute in Hsk. discriminate.
Qed.

(** ** Rendering (C8) *)

Lemma str_mul_succ (s : string) (n : Z) :
  0 <= n -> str_mul s (n + 1) = s +:+ str_mul s n.
Proof.
  intros Hn. unfold str_mul.
  replace (Z.to_nat (n + 1)) with (S (Z.to_nat n)) by lia. done.
Qed.

Lemma str_mul_length (n : Z) :
  String.length (str_mul "  " n) = (2 * Z.to_nat n)%nat.
Proof.
  unfold str_mul. induction (Z.to_nat n) as [|k IH]; [done|].
  simpl Nat.iter. rewrite string_length_app, IH. simpl. lia.
Qed.

Lemma print_properties_concat indent props :
  print_properties (fun v => print_structure v (indent + 2))
                   (str_mul "  " indent) props
  = string_concat (map (rendered_property indent) props).
Proof.
  induction props as [|[key value] props IH]; simpl; [done|].
  rewrite IH. unfold rendered_property, is_container. simpl.
  destruct (String.eqb (d_type value) "object" || String.eqb (d_type value) "array");
    by rewrite !string_app_assoc.
Qed.

(** C8: the indentation of level [indent] is [indent] times two spaces; an
    object is printed as [Object {], its properties and [}], each property
    being its key followed, for an object or an array, by a line break and
    the child at [indent + 2], and for any other kind by that kind on the
    same line and [(e.g., "sample")] when there is a sample; a descriptor of
    any other kind than object and array is printed as its kind and that
    same suffix.  For [{"a": 1, "b": [1,2,3], "c": "hi"}] this gives an
    [Object {] block with [a: integer], then [b:] and under it
    [Array[3] {] with [items:] and [integer], and [c: string (e.g., "hi")]. *)
Theorem C8_rendering :
  (forall indent, String.length (str_mul "  " indent)
                  = (2 * Z.to_nat indent)%nat)
  /\ (forall indent, 0 <= indent ->
        str_mul "  " (indent + 2) = "    " +:+ str_mul "  " indent)
  /\ (forall d indent props,
        d_type d = "object" -> d_properties d = Some props ->
        print_structure d indent
        = str_mul "  " indent +:+ "Object {" +:+ nl
          +:+ string_concat (map (rendered_property indent) props)
          +:+ str_mul "  " indent +:+ "}" +:+ nl)
  /\ (forall indent key value,
        d_type value = "object" \/ d_type value = "array" ->
        rendered_property indent (key, value)
        = str_mul "  " indent +:+ "  " +:+ key +:+ ":" +:+ nl
          +:+ print_structure value (indent + 2))
  /\ (forall indent key value,
        d_type value <> "object" -> d_type value <> "array" ->
        rendered_property indent (key, value)
        = str_mul "  " indent +:+ "  " +:+ key +:+ ": " +:+ d_type value
          +:+ match d_sample value with
              | Some s => " (e.g., " +:+ dquote +:+ s +:+ dquote +:+ ")"
              | None => ""
              end
          +:+ nl)
  /\ (forall d indent,
        d_type d <> "object" -> d_type d <> "array" ->
        print_structure d indent
        = str_mul "  " indent +:+ d_type d
          +:+ match d_sample d with
              | Some s => " (e.g., " +:+ dquote +:+ s +:+ dquote +:+ ")"
              | None => ""
              end)
  /\ print_structure (analyze sample_document 5) 0 = sample_rendering.
Proof.
  split; [|split; [|split; [|split; [|split; [|split]]]]].
  - apply str_mul_length.
  - intros indent Hi. replace (indent + 2) with ((indent + 1) + 1) by lia.
    rewrite !str_mul_succ by lia. by rewrite <- string_app_assoc.
  - intros [t n l i s p] indent props Ht Hp. simpl in Ht, Hp. subst t p.
    simpl. rewrite print_properties_concat. by rewrite !string_app_assoc.
  - intros indent key value Hc. unfold rendered_property. simpl.
    destruct Hc as [-> | ->]; done.
  - intros indent key value Hno Hna. unfold rendered_property. simpl.
    rewrite (proj2 (String.eqb_neq _ _) Hno), (proj2 (String.eqb_neq _ _) Hna).
    done.
  - intros [t n l i s p] indent Hno Hna. simpl in *.
    rewrite (proj2 (String.eqb_neq _ _) Hno), (proj2 (String.eqb_neq _ _) Hna).
    unfold sample_suffix. simpl. by rewrite string_app_assoc.
  - by vm_compute.
Qed.

Lemma C8_rendering_witness :
  print_structure (set_sample "hi" (new_result "string")) 1
  = "  string (e.g., " +:+ dquote +:+ "hi" +:+ dquote +:+ ")"
  /\ rendered_property 0 ("b", set_length 0 (new_result "array"))
     = "  b:" +:+ nl +:+ "    Array[0] {" +:+ nl +:+ "    }" +:+ nl.
Proof.
  destruct C8_rendering as (_ & _ & _ & Hchild & _ & Hleaf & _).
  split.
  - rewrite Hleaf; [by vm_compute | discriminate | discriminate].
  - rewrite Hchild; [by vm_compute | by right].
Defined.

(** * Further properties of the analyser, the renderer and the report *)

(** ** Depth of the result *)

Lemma list_max_map_le {A} (f : A -> nat) (l : list A) (n : nat) :
  Forall (fun a => (f a <= n)%nat) l -> (list_max (map f l) <= n)%nat.
Proof.
  induction 1 as [|a l Ha _ IH]; simpl; [lia|]. apply Nat.max_lub; done.
Qed.

Lemma list_max_map_ge {A} (f : A -> nat) (l : list A) (a : A) :
  a ∈ l -> (f a <= list_max (map f l))%nat.
Proof.
  induction l as [|b l IH]; simpl.
  - by intros ?%elem_of_nil.
  - intros [->|Hin]%elem_of_cons; [lia|]. specialize (IH Hin). lia.
Qed.

Lemma nesting_samples_0 samples n :
  Forall (fun d => (nesting d <= n)%nat) samples ->
  (nesting (samples_0 samples) <= n)%nat.
Proof. intros [|s0 rest Hs0 _]; simpl; [lia | done]. Qed.

Lemma analyze_structure_nesting v path depth max_depth seen :
  (nesting (analyze_structure v path depth max_depth seen).1
   <= Z.to_nat (max_depth + 1 - depth))%nat.
Proof.
  revert path depth seen.
  induction v as [| | | | |l IH|kvs IH|] using value_nested_ind;
    intros path depth seen;
    (destruct (Z_lt_le_dec max_depth depth) as [Hlt|Hle];
     [ rewrite analyze_structure_truncated by done; simpl; lia
     | rewrite analyze_structure_unfold by done; simpl ]);
    try lia.
  - destruct (0 <? length l)%nat; [|simpl; lia].
    pose proof (sample_loop_Forall
                  (fun x p s => analyze_structure x p (depth + 1) max_depth s)
                  (fun d => (nesting d <= Z.to_nat (max_depth - depth))%nat)
                  path l 0 (Nat.min 3 (length l)) seen) as Hs.
    destruct (sample_loop _ _ _ _ _ _) as [samples seen']. simpl in Hs.
    assert (Forall (fun d => (nesting d <= Z.to_nat (max_depth - depth))%nat)
                   samples) as Hall.
    { apply Hs. eapply Forall_impl; [exact IH|]. intros x Hx p s.
      specialize (Hx p (depth + 1) s).
      by replace (max_depth + 1 - (depth + 1)) with (max_depth - depth) in Hx
        by lia. }
    destruct (all_same samples); simpl; rewrite ?Nat.max_0_r.
    + pose proof (nesting_samples_0 samples _ Hall). lia.
    + assert (list_max (map (fun a => S (nesting a)) samples)
              <= S (Z.to_nat (max_depth - depth)))%nat as Hm.
      { apply list_max_map_le. eapply Forall_impl; [exact Hall|].
        intros d Hd. simpl in *. lia. }
      lia.
  - pose proof (property_loop_Forall
                  (fun x p s => analyze_structure x p (depth + 1) max_depth s)
                  (fun d => (nesting d <= Z.to_nat (max_depth - depth))%nat)
                  path kvs [] seen) as Hp.
    destruct (property_loop _ _ _ _ _) as [props seen']. simpl in Hp.
    assert (Forall (fun kv => (nesting kv.2 <= Z.to_nat (max_depth - depth))%nat)
                   props) as Hall.
    { apply Hp; [|constructor]. eapply Forall_impl; [exact IH|].
      intros x Hx p s. specialize (Hx p (depth + 1) s).
      by replace (max_depth + 1 - (depth + 1)) with (max_depth - depth) in Hx
        by lia. }
    simpl.
    assert (list_max (map (fun kv : string * descriptor => S (nesting kv.2))
                          props)
            <= S (Z.to_nat (max_depth - depth)))%nat as Hm.
    { apply list_max_map_le. eapply Forall_impl; [exact Hall|].
      intros d Hd. simpl in *. lia. }
    lia.
Qed.

(** X1: the descriptor returned by a call has at most
    [max_depth + 1 - depth] levels below its root, so a run started at
    depth 0 returns a tree with at most [max_depth + 1] levels below the
    root. *)
Theorem X1_nesting_bounded v path depth max_depth seen :
  (nesting (analyze_structure v path depth max_depth seen).1
   <= Z.to_nat (max_depth + 1 - depth))%nat
  /\ (nesting (analyze v max_depth) <= Z.to_nat (max_depth + 1))%nat.
Proof.
  split; [apply analyze_structure_nesting|].
  unfold analyze.
  pose proof (analyze_structure_nesting v "root" 0 max_depth ∅) as H.
  by replace (max_depth + 1 - 0) with (max_depth + 1) in H by lia.
Qed.

(** ** The depth budget *)

Section LoopExt.
Variables rec1 rec2 : value -> string -> paths -> descriptor * paths.

Lemma sample_loop_ext path xs i n seen :
  Forall (fun x => forall p s, rec1 x p s = rec2 x p s) xs ->
  sample_loop rec1 path xs i n seen = sample_loop rec2 path xs i n seen.
Proof.
  intros Hxs. revert i n seen.
  induction Hxs as [|x xs Hx _ IH]; intros i [|n] seen; simpl; try done.
  rewrite Hx. destruct (rec2 x _ seen) as [d seen1]. by rewrite IH.
Qed.

Lemma property_loop_ext path kvs props seen :
  Forall (fun kv => forall p s, rec1 kv.2 p s = rec2 kv.2 p s) kvs ->
  property_loop rec1 path kvs props seen
  = property_loop rec2 path kvs props seen.
Proof.
  intros Hkvs. revert props seen.
  induction Hkvs as [|[k v] kvs Hv _ IH]; intros props seen; simpl; [done|].
  simpl in Hv. destruct (decide (child_path path k ∈ seen)); [apply IH|].
  rewrite Hv. destruct (rec2 v _ _) as [d seen1]. apply IH.
Qed.
End LoopExt.

Lemma levels_pos v : (1 <= levels v)%nat.
Proof. destruct v; simpl; lia. Qed.

Lemma levels_list_member l x : x ∈ l -> (S (levels x) <= levels (VList l))%nat.
Proof.
  intros Hx. simpl. pose proof (list_max_map_ge levels l x Hx). lia.
Qed.

Lemma levels_dict_member kvs kv :
  kv ∈ kvs -> (S (levels kv.2) <= levels (VDict kvs))%nat.
Proof.
  intros Hx. simpl.
  pose proof (list_max_map_ge (fun kv : string * value => levels kv.2) kvs kv Hx).
  lia.
Qed.

(** With a budget that covers the levels of the value, the call is the
    same as with any other budget that does. *)
Lemma analyze_structure_budget v :
  forall path depth max_depth depth' max_depth' seen,
    Z.of_nat (levels v) + depth <= max_depth + 1 ->
    Z.of_nat (levels v) + depth' <= max_depth' + 1 ->
    analyze_structure v path depth max_depth seen
    = analyze_structure v path depth' max_depth' seen.
Proof.
  induction v as [| | | | |l IH|kvs IH|] using value_nested_ind;
    intros path depth max_depth depth' max_depth' seen H1 H2;
    pose proof (levels_pos (VList [])) as _;
    rewrite !analyze_structure_unfold
      by (match goal with |- _ <= _ => simpl in H1, H2; lia end);
    try done.
  - cbv zeta. destruct (0 <? length l)%nat; [|done].
    rewrite (sample_loop_ext
               (fun x p s => analyze_structure x p (depth + 1) max_depth s)
               (fun x p s => analyze_structure x p (depth' + 1) max_depth' s));
      [done|].
    rewrite Forall_forall in IH. apply Forall_forall. intros x Hx p s.
    pose proof (levels_list_member l x Hx).
    apply (IH x Hx); lia.
  - cbv zeta.
    rewrite (property_loop_ext
               (fun x p s => analyze_structure x p (depth + 1) max_depth s)
               (fun x p s => analyze_structure x p (depth' + 1) max_depth' s));
      [done|].
    rewrite Forall_forall in IH. apply Forall_forall. intros kv Hkv p s.
    pose proof (levels_dict_member kvs kv Hkv).
    apply (IH kv Hkv); lia.
Qed.

Lemma analyze_structure_shift v :
  forall path depth max_depth k seen,
    analyze_structure v path (depth + k) (max_depth + k) seen
    = analyze_structure v path depth max_depth seen.
Proof.
  induction v as [| | | | |l IH|kvs IH|] using value_nested_ind;
    intros path depth max_depth k seen;
    (destruct (Z_lt_le_dec max_depth depth) as [Hlt|Hle];
     [ by rewrite !analyze_structure_truncated by lia
     | rewrite !analyze_structure_unfold by lia ]);
    try done.
  - cbv zeta. destruct (0 <? length l)%nat; [|done].
    rewrite (sample_loop_ext
               (fun x p s => analyze_structure x p (depth + k + 1)
                               (max_depth + k) s)
               (fun x p s => analyze_structure x p (depth + 1) max_depth s));
      [done|].
    eapply Forall_impl; [exact IH|]. intros x Hx p s.
    replace (depth + k + 1) with (depth + 1 + k) by lia. apply Hx.
  - cbv zeta.
    rewrite (property_loop_ext
               (fun x p s => analyze_structure x p (depth + k + 1)
                               (max_depth + k) s)
               (fun x p s => analyze_structure x p (depth + 1) max_depth s));
      [done|].
    eapply Forall_impl; [exact IH|]. intros x Hx p s.
    replace (depth + k + 1) with (depth + 1 + k) by lia. apply Hx.
Qed.

Lemma analyze_structure_no_note v :
  forall path depth max_depth seen,
    Z.of_nat (levels v) + depth <= max_depth + 1 ->
    Forall (fun n => d_note n = None)
           (nodes (analyze_structure v path depth max_depth seen).1).
Proof.
  induction v as [| | | | |l IH|kvs IH|] using value_nested_ind;
    intros path depth max_depth seen H1;
    rewrite analyze_structure_unfold by (simpl in H1; lia);
    try (by repeat constructor).
  - cbv zeta. destruct (0 <? length l)%nat eqn:Hpos; [|by repeat constructor].
    apply Nat.ltb_lt in Hpos.
    assert (Forall (fun d => Forall (fun n => d_note n = None) (nodes d))
              (sample_loop
                 (fun x p s => analyze_structure x p (depth + 1) max_depth s)
                 path l 0 (Nat.min 3 (length l)) seen).1) as Hs.
    { apply sample_loop_Forall.
      rewrite Forall_forall in IH. apply Forall_forall. intros x Hx p s.
      pose proof (levels_list_member l x Hx). apply (IH x Hx). lia. }
    assert (length (sample_loop
                 (fun x p s => analyze_structure x p (depth + 1) max_depth s)
                 path l 0 (Nat.min 3 (length l)) seen).1
            = Nat.min (Nat.min 3 (length l)) (length l)) as Hlen
      by apply sample_loop_length.
    destruct (sample_loop _ _ _ _ _ _) as [samples seen']. simpl in *.
    destruct (all_same samples); simpl.
    + constructor; [done|]. rewrite app_nil_r.
      destruct Hs as [|s0 rest Hs0 _]; [|done].
      simpl in Hlen. lia.
    + constructor; [done|]. rewrite app_nil_r. by apply Forall_flat_map.
  - cbv zeta.
    assert (Forall (fun kv => Forall (fun n => d_note n = None) (nodes kv.2))
              (property_loop
                 (fun v p s => analyze_structure v p (depth + 1) max_depth s)
                 path kvs [] seen).1) as Hp.
    { apply (property_loop_Forall _
               (fun d => Forall (fun n => d_note n = None) (nodes d)));
        [|constructor].
      rewrite Forall_forall in IH. apply Forall_forall. intros kv Hkv p s.
      pose proof (levels_dict_member kvs kv Hkv). apply (IH kv Hkv). lia. }
    destruct (property_loop _ _ _ _ _) as [props seen']. simpl in *.
    constructor; [done|]. by apply Forall_flat_map.
Qed.

(** X2: when the budget covers the value, [levels v + depth <=
    max_depth + 1], nothing is truncated: no node of the result carries the
    ["note"] entry, so none is the truncation sentinel. *)
Theorem X2_no_truncation_within_budget v path depth max_depth seen n :
  Z.of_nat (levels v) + depth <= max_depth + 1 ->
  n ∈ nodes (analyze_structure v path depth max_depth seen).1 ->
  d_note n = None /\ n <> truncated.
Proof.
  intros Hfit Hn.
  pose proof (analyze_structure_no_note v path depth max_depth seen Hfit) as H.
  rewrite Forall_forall in H. specialize (H n Hn).
  split; [done|]. intros ->. discriminate.
Qed.

Lemma X2_no_truncation_within_budget_witness :
  d_note (analyze_structure sample_document "root" 0 5 ∅).1 = None
  /\ (analyze_structure sample_document "root" 0 5 ∅).1 <> truncated.
Proof.
  apply (X2_no_truncation_within_budget sample_document "root" 0 5 ∅);
    [simpl; lia | apply nodes_self].
Defined.

(** X3: once the budget covers the value, its size no longer matters: two
    calls whose budgets both cover the value return the same descriptor and
    leave the same [seen_paths]; raising [max_depth] beyond what the
    document needs changes nothing. *)
Theorem X3_budget_irrelevant v path depth max_depth depth' max_depth' seen :
  Z.of_nat (levels v) + depth <= max_depth + 1 ->
  Z.of_nat (levels v) + depth' <= max_depth' + 1 ->
  analyze_structure v path depth max_depth seen
  = analyze_structure v path depth' max_depth' seen.
Proof. apply analyze_structure_budget. Qed.

Lemma X3_budget_irrelevant_witness :
  analyze_structure sample_document "root" 0 5 ∅
  = analyze_structure sample_document "root" 0 10 ∅.
Proof.
  apply (X3_budget_irrelevant sample_document "root" 0 5 0 10 ∅);
    simpl; lia.
Defined.

(** X4: a call depends on [depth] and [max_depth] only through their
    difference: shifting both by the same amount changes neither the
    descriptor nor [seen_paths]. *)
Theorem X4_depth_shift v path depth max_depth k seen :
  analyze_structure v path (depth + k) (max_depth + k) seen
  = analyze_structure v path depth max_depth seen.
Proof. apply analyze_structure_shift. Qed.

(** ** The two forms of ["items"] *)

(** X5: ["items"] is a list only for an array with at least two elements
    whose sampled descriptors are not all equal; the list then has two or
    three entries, one per sampled element, never one and never more than
    three. *)
Theorem X5_items_list_has_two_or_three v path depth max_depth seen ds :
  d_items (analyze_structure v path depth max_depth seen).1
  = Some (ItemsMany ds) ->
  (2 <= length ds <= 3)%nat
  /\ ~ pairwise_identical ds
  /\ exists l, v = VList l /\ length ds = Nat.min 3 (length l).
Proof.
  destruct (Z_lt_le_dec max_depth depth) as [Hlt|Hle].
  { by rewrite analyze_structure_truncated. }
  rewrite analyze_structure_unfold by done.
  destruct v; try done; cbv zeta.
  2: { by destruct (property_loop _ _ _ _ _). }
  destruct (0 <? length l)%nat; [|done].
  pose proof (analyze_structure_list_samples_wf l path depth max_depth seen
                0 (Nat.min 3 (length l))) as Hwf.
  pose proof (sample_loop_length
                (fun x p s => analyze_structure x p (depth + 1) max_depth s)
                path l 0 (Nat.min 3 (length l)) seen) as Hlen.
  destruct (sample_loop _ _ _ _ _ _) as [samples seen']. simpl in Hwf, Hlen.
  destruct (all_same samples) eqn:Hsame; simpl; [done|].
  intros [= <-].
  assert (~ pairwise_identical samples) as Hnp.
  { intros Hp. apply (all_same_pairwise samples Hwf) in Hp. congruence. }
  split; [|split; [done|]].
  - split; [|lia].
    destruct samples as [|s0 [|s1 rest]]; simpl; [done| |lia].
    exfalso. apply Forall_cons in Hwf as [Hwf0 _].
    destruct (descriptor_eqb_equiv s0 Hwf0) as (Hrefl & _).
    simpl in Hsame. by rewrite Hrefl in Hsame.
  - exists l. split; [done|]. rewrite Hlen. lia.
Qed.

Lemma X5_items_list_has_two_or_three_witness :
  (2 <= length [new_result "integer"; set_sample "a" (new_result "string");
                new_result "boolean"] <= 3)%nat.
Proof.
  apply (X5_items_list_has_two_or_three
           (VList [VInt 1; VStr "a"; VBool true]) "root" 0 5 ∅).
  by vm_compute.
Defined.

(** ** At the depth limit *)

Section ConstantRec.
Variable rec : value -> string -> paths -> descriptor * paths.
Hypothesis rec_truncated : forall v p s, rec v p s = (truncated, s).

Lemma sample_loop_truncated path xs i n seen :
  sample_loop rec path xs i n seen
  = (replicate (Nat.min n (length xs)) truncated, seen).
Proof.
  revert i n seen. induction xs as [|x xs IH]; intros i [|n] seen; simpl;
    try done.
  by rewrite rec_truncated, IH.
Qed.

Lemma dict_set_fresh {A} k (a : A) d :
  k ∉ dict_keys d -> dict_set k a d = d ++ [(k, a)].
Proof.
  induction d as [|[k' a'] d IH]; simpl; [done|].
  rewrite not_elem_of_cons. intros [Hne Hnin].
  destruct (String.eqb_spec k k') as [->|_]; [done|]. by rewrite IH.
Qed.

Lemma child_path_inj path k1 k2 :
  child_path path k1 = child_path path k2 -> k1 = k2.
Proof.
  unfold child_path. intros H%String.app_inj. by apply String.app_inj in H.
Qed.

Lemma property_loop_truncated path kvs props seen :
  NoDup (dict_keys kvs) ->
  (forall k, k ∈ dict_keys kvs -> k ∉ dict_keys props) ->
  (forall k, k ∈ dict_keys kvs -> child_path path k ∉ seen) ->
  property_loop rec path kvs props seen
  = (props ++ map (fun kv => (kv.1, truncated)) kvs,
     seen ∪ list_to_set (map (child_path path) (dict_keys kvs))).
Proof.
  revert props seen.
  induction kvs as [|[k v] kvs IH]; intros props seen Hnd Hnew Hunseen; simpl.
  { rewrite app_nil_r. f_equal. set_solver. }
  change (dict_keys ((k, v) :: kvs)) with (k :: dict_keys kvs) in *.
  apply NoDup_cons in Hnd as [Hk Hnd].
  rewrite decide_False by (apply Hunseen; rewrite elem_of_cons; by left).
  rewrite rec_truncated.
  rewrite dict_set_fresh by (apply Hnew; rewrite elem_of_cons; by left).
  rewrite IH; [|done| |].
  - rewrite <- app_assoc. simpl. f_equal. set_solver.
  - intros k' Hk'. unfold dict_keys. rewrite map_app. simpl.
    rewrite elem_of_app, list_elem_of_singleton. intros [Hin| ->]; [|done].
    apply (Hnew k'); [rewrite elem_of_cons; by right | done].
  - intros k' Hk'. rewrite elem_of_union, elem_of_singleton.
    intros [Heq|Hin].
    + apply child_path_inj in Heq. by subst.
    + apply (Hunseen k'); [rewrite elem_of_cons; by right | done].
Qed.
End ConstantRec.

Lemma all_same_replicate n : all_same (replicate n truncated) = true.
Proof.
  destruct n as [|n]; [done|].
  change (forallb (fun s => descriptor_eqb s truncated)
            (replicate (S n) truncated) = true).
  apply forallb_forall. intros x Hx%list_elem_of_In.
  by apply elem_of_replicate in Hx as [-> _].
Qed.

(** X6: at the last level, [depth = max_depth], a non-empty array is
    reported as homogeneous whatever it holds: its ["items"] is the single
    truncation sentinel, its ["length"] is the true length, and
    [seen_paths] is left as it was. *)
Theorem X6_array_at_depth_limit l path max_depth seen :
  l <> [] ->
  analyze_structure (VList l) path max_depth max_depth seen
  = (set_items (ItemsOne truncated)
       (set_length (length l) (new_result "array")), seen).
Proof.
  intros Hne. rewrite analyze_structure_unfold by lia. cbv zeta.
  destruct l as [|x l]; [done|].
  change (0 <? length (x :: l))%nat with true. cbv iota.
  rewrite (sample_loop_truncated
             (fun x p s => analyze_structure x p (max_depth + 1) max_depth s))
    by (intros; apply analyze_structure_truncated; lia).
  rewrite all_same_replicate.
  replace (Nat.min (Nat.min 3 (length (x :: l))) (length (x :: l)))
    with (S (Nat.min 2 (length l))) by (simpl; lia).
  done.
Qed.

Lemma X6_array_at_depth_limit_witness :
  analyze_structure (VList [VInt 1; VStr "a"]) "root" 5 5 ∅
  = (set_items (ItemsOne truncated) (set_length 2 (new_result "array")), ∅).
Proof.
  by apply (X6_array_at_depth_limit [VInt 1; VStr "a"] "root" 5 ∅).
Defined.

(** X7: at the last level an object whose child paths are all unseen gets
    every key, in order, bound to the truncation sentinel, and every child
    path is added to [seen_paths] although no value was looked at. *)
Theorem X7_object_at_depth_limit kvs path max_depth seen :
  NoDup (dict_keys kvs) ->
  (forall k, k ∈ dict_keys kvs -> child_path path k ∉ seen) ->
  analyze_structure (VDict kvs) path max_depth max_depth seen
  = (set_properties (map (fun kv => (kv.1, truncated)) kvs)
       (new_result "object"),
     seen ∪ list_to_set (map (child_path path) (dict_keys kvs))).
Proof.
  intros Hnd Hunseen. rewrite analyze_structure_unfold by lia. cbv zeta.
  rewrite (property_loop_truncated
             (fun x p s => analyze_structure x p (max_depth + 1) max_depth s));
    try done.
  - intros; apply analyze_structure_truncated; lia.
  - intros k _. apply not_elem_of_nil.
Qed.

Lemma X7_object_at_depth_limit_witness :
  analyze_structure (VDict [("a", VInt 1); ("b", VList [])]) "root" 5 5 ∅
  = (set_properties [("a", truncated); ("b", truncated)] (new_result "object"),
     ∅ ∪ list_to_set ["root.a"; "root.b"]).
Proof.
  apply (X7_object_at_depth_limit [("a", VInt 1); ("b", VList [])] "root" 5 ∅).
  - apply (bool_decide_unpack _). by vm_compute.
  - intros k _. apply not_elem_of_empty.
Defined.

(** ** The keys of ["properties"] *)

Section KeysKept.
Variable rec : value -> string -> paths -> descriptor * paths.

Lemma property_loop_keys_sublist path kvs props seen :
  NoDup (dict_keys kvs) ->
  (forall k, k ∈ dict_keys kvs -> k ∉ dict_keys props) ->
  exists ks,
    dict_keys (property_loop rec path kvs props seen).1 = dict_keys props ++ ks
    /\ sublist ks (dict_keys kvs).
Proof.
  revert props seen.
  induction kvs as [|[k v] kvs IH]; intros props seen Hnd Hnew; simpl.
  { exists []. split; [by rewrite app_nil_r | constructor]. }
  change (dict_keys ((k, v) :: kvs)) with (k :: dict_keys kvs) in *.
  apply NoDup_cons in Hnd as [Hk Hnd].
  destruct (decide (child_path path k ∈ seen)).
  - destruct (IH props seen Hnd) as (ks & Hks & Hsub).
    { intros k' Hk'. apply Hnew. rewrite elem_of_cons. by right. }
    exists ks. split; [done | by apply sublist_cons].
  - destruct (rec v _ _) as [d seen1].
    assert (k ∉ dict_keys props) as Hkp
      by (apply Hnew; rewrite elem_of_cons; by left).
    destruct (IH (dict_set k d props) seen1 Hnd) as (ks & Hks & Hsub).
    { intros k' Hk'. rewrite dict_keys_set_new by done.
      rewrite elem_of_app, list_elem_of_singleton. intros [Hin| ->]; [|done].
      apply (Hnew k'); [rewrite elem_of_cons; by right | done]. }
    exists (k :: ks). split; [|by apply sublist_skip].
    rewrite Hks, dict_keys_set_new by done. by rewrite <- app_assoc.
Qed.

Lemma property_loop_marks_all path kvs props seen :
  (forall v p s, s ⊆ (rec v p s).2) ->
  forall k, k ∈ dict_keys kvs ->
            child_path path k ∈ (property_loop rec path kvs props seen).2.
Proof.
  intros Hmono. revert props seen.
  induction kvs as [|[k v] kvs IH]; intros props seen k'; simpl.
  { by intros ?%elem_of_nil. }
  rewrite elem_of_cons. intros [->|Hin].
  - destruct (decide (child_path path k ∈ seen)) as [Hseen|Hnew].
    + by apply (property_loop_mono rec path kvs props seen Hmono).
    + pose proof (Hmono v (child_path path k) ({[child_path path k]} ∪ seen))
        as Hv.
      destruct (rec v _ _) as [d seen1]. simpl in Hv.
      apply (property_loop_mono rec path kvs _ seen1 Hmono). set_solver.
  - destruct (decide (child_path path k ∈ seen)); [by apply IH|].
    destruct (rec v _ _) as [d seen1]. by apply IH.
Qed.
End KeysKept.

(** X8: the keys of ["properties"] are keys of the object, kept in the
    object's order and without repetition; keys may be missing but none is
    invented or moved. *)
Theorem X8_properties_keys_sublist kvs path depth max_depth seen props :
  NoDup (dict_keys kvs) ->
  d_properties (analyze_structure (VDict kvs) path depth max_depth seen).1
  = Some props ->
  sublist (dict_keys props) (dict_keys kvs)
  /\ NoDup (dict_keys props)
  /\ (length props <= length kvs)%nat.
Proof.
  intros Hnd.
  destruct (Z_lt_le_dec max_depth depth) as [Hlt|Hle].
  { by rewrite analyze_structure_truncated. }
  rewrite analyze_structure_dict by done. simpl. intros [= <-].
  destruct (property_loop_keys_sublist
              (fun v p s => analyze_structure v p (depth + 1) max_depth s)
              path kvs [] seen Hnd) as (ks & Hks & Hsub).
  { intros k _. apply not_elem_of_nil. }
  simpl in Hks. rewrite Hks.
  split; [done|]. split.
  - by eapply sublist_NoDup.
  - apply sublist_length in Hsub. unfold dict_keys in Hks, Hsub.
    rewrite <- Hks, !length_map in Hsub. done.
Qed.

Lemma X8_properties_keys_sublist_witness :
  sublist (dict_keys [("a", new_result "integer")])
          (dict_keys [("a", VInt 1); ("b", VInt 2)]).
Proof.
  apply (X8_properties_keys_sublist [("a", VInt 1); ("b", VInt 2)]
           "root" 0 5 {["root.b"]} [("a", new_result "integer")]).
  - apply (bool_decide_unpack _). by vm_compute.
  - by vm_compute.
Defined.

(** ** Reusing [seen_paths] *)

(** X9: [seen_paths] remembers every key of an analysed object: a later
    call at the same path with the set left by the first, on the same
    object or on any object with no other keys, passes over every key and
    returns an empty ["properties"], leaving the set as it is. *)
Theorem X9_second_run_is_empty kvs kvs' path depth max_depth seen :
  depth <= max_depth ->
  (forall k, k ∈ dict_keys kvs' -> k ∈ dict_keys kvs) ->
  let seen' := (analyze_structure (VDict kvs) path depth max_depth seen).2 in
  analyze_structure (VDict kvs') path depth max_depth seen'
  = (set_properties [] (new_result "object"), seen').
Proof.
  intros Hle Hkeys seen'.
  rewrite analyze_structure_dict by done. cbv zeta.
  rewrite property_loop_all_seen; [done|].
  intros k Hk. subst seen'. rewrite analyze_structure_dict by done. simpl.
  apply property_loop_marks_all; [|by apply Hkeys].
  intros v p s. apply analyze_structure_mono.
Qed.

Lemma X9_second_run_is_empty_witness :
  analyze_structure sample_document "root" 0 5
    (analyze_structure sample_document "root" 0 5 ∅).2
  = (set_properties [] (new_result "object"),
     (analyze_structure sample_document "root" 0 5 ∅).2).
Proof.
  apply (X9_second_run_is_empty
           [("a", VInt 1); ("b", VList [VInt 1; VInt 2; VInt 3]); ("c", VStr "hi")]
           [("a", VInt 1); ("b", VList [VInt 1; VInt 2; VInt 3]); ("c", VStr "hi")]
           "root" 0 5 ∅); [lia | done].
Defined.

(** X10: a call never removes a path from [seen_paths], and every path it
    adds is the call's own path followed by a ["."] or ["["] segment: it
    records nothing outside the subtree it was started on. *)
Theorem X10_seen_paths_grow_below_path v path depth max_depth seen :
  let seen' := (analyze_structure v path depth max_depth seen).2 in
  seen ⊆ seen'
  /\ forall q, q ∈ seen' -> q ∈ seen \/ delimited_extension path q.
Proof.
  intros seen'. split; [apply analyze_structure_mono|].
  intros q Hq. subst seen'.
  destruct (analyze_structure_accounted v path depth max_depth seen)
    as (Hseen & _).
  rewrite Hseen, elem_of_union, elem_of_list_to_set in Hq.
  destruct Hq as [?|Hq]; [by left|]. right.
  apply key_calls_event in Hq as (e & He & _ & <-).
  by eapply trace_extends.
Qed.

(** ** String samples *)

(** X11: a sample never has more than 50 characters: its length is
    [min(len(s), 50)]; it is the string itself exactly when the string has
    at most 50 characters; and sampling a sample changes nothing. *)
Theorem X11_sample_length (s : string) :
  String.length (sample_of s) = Nat.min (String.length s) 50
  /\ (sample_of s = s <-> (String.length s <= 50)%nat)
  /\ sample_of (sample_of s) = sample_of s.
Proof.
  assert (String.length (sample_of s) = Nat.min (String.length s) 50) as Hlen.
  { unfold sample_of. destruct (50 <? String.length s)%nat eqn:Hs.
    - apply Nat.ltb_lt in Hs.
      rewrite string_length_app, substring_0_length by lia. simpl. lia.
    - apply Nat.ltb_ge in Hs. lia. }
  split; [done|]. split; [split|].
  - intros Heq. rewrite Heq in Hlen. lia.
  - intros Hs. unfold sample_of. apply Nat.ltb_ge in Hs. by rewrite Hs.
  - unfold sample_of at 1.
    assert ((50 <? String.length (sample_of s))%nat = false) as ->; [|done].
    apply Nat.ltb_ge. lia.
Qed.

(** ** Rendering arrays, and what the renderer ignores *)

Lemma print_items_concat indent i its :
  print_items (fun v => print_structure v (indent + 2))
              (str_mul "  " indent) i its
  = string_concat (imap (fun j => rendered_item indent (i + j)) its).
Proof.
  revert i. induction its as [|item its IH]; intros i; simpl; [done|].
  rewrite IH, Nat.add_0_r.
  assert (imap (fun j => rendered_item indent (S i + j)) its
          = imap ((fun j => rendered_item indent (i + j)) ∘ S) its) as ->.
  { apply imap_ext. intros j x _. simpl. do 2 f_equal. lia. }
  unfold rendered_item at 2. by rewrite !string_app_assoc.
Qed.

Lemma print_structure_array d indent :
  d_type d = "array" ->
  print_structure d indent
  = str_mul "  " indent +:+ "Array[" +:+ pretty (default 0%nat (d_length d))
    +:+ "] {" +:+ nl
    +:+ match d_items d with
        | Some (ItemsOne it) =>
            str_mul "  " indent +:+ "  items:" +:+ nl
            +:+ print_structure it (indent + 2)
        | Some (ItemsMany its) =>
            string_concat (imap (rendered_item indent) its)
        | None => ""
        end
    +:+ str_mul "  " indent +:+ "}" +:+ nl.
Proof.
  destruct d as [t n l i s p]. simpl. intros ->. simpl.
  destruct i as [[it|its]|]; rewrite ?print_items_concat;
    by rewrite !string_app_assoc.
Qed.

(** X12: an array descriptor is printed as [Array[n] {], its items and
    [}], where [n] is the ["length"] entry and 0 when there is none; the
    single-descriptor form of ["items"] is printed as an [items:] line and
    the descriptor at [indent + 2], the list form as one [[i]:] line per
    entry, numbered from 0, each followed by the entry at [indent + 2]; and
    nothing is printed between the braces when ["items"] is absent. *)
Theorem X12_array_rendering d indent :
  d_type d = "array" ->
  print_structure d indent
  = str_mul "  " indent +:+ "Array[" +:+ pretty (default 0%nat (d_length d))
    +:+ "] {" +:+ nl
    +:+ match d_items d with
        | Some (ItemsOne it) =>
            str_mul "  " indent +:+ "  items:" +:+ nl
            +:+ print_structure it (indent + 2)
        | Some (ItemsMany its) =>
            string_concat (imap (rendered_item indent) its)
        | None => ""
        end
    +:+ str_mul "  " indent +:+ "}" +:+ nl.
Proof. apply print_structure_array. Qed.

Lemma X12_array_rendering_witness :
  print_structure (new_result "array") 1
  = "  Array[0] {" +:+ nl +:+ "  }" +:+ nl.
Proof.
  rewrite (X12_array_rendering (new_result "array") 1); [by vm_compute | done].
Defined.

Lemma d_type_strip_note d : d_type (strip_note d) = d_type d.
Proof. by destruct d. Qed.

Lemma sample_suffix_strip_note d : sample_suffix (strip_note d) = sample_suffix d.
Proof. by destruct d. Qed.

Lemma print_structure_strip_note d :
  forall indent, print_structure (strip_note d) indent = print_structure d indent.
Proof.
  induction d as [t n l i s p IHi IHp] using descriptor_nested_ind.
  intros indent. simpl.
  destruct (String.eqb t "object").
  - do 2 f_equal. destruct p as [q|]; [|done].
    induction IHp as [|[k v] q Hv _ IH]; simpl; [done|].
    unfold is_container. rewrite d_type_strip_note, sample_suffix_strip_note.
    simpl in Hv. rewrite Hv, IH. done.
  - destruct (String.eqb t "array"); [|done].
    do 2 f_equal. destruct i as [[a|ds]|]; [by rewrite IHi| |done].
    generalize 0%nat.
    induction IHi as [|x ds Hx _ IH]; intros j; simpl; [done|].
    by rewrite Hx, IH.
Qed.

Lemma print_structure_truncated indent :
  print_structure truncated indent = str_mul "  " indent +:+ "...".
Proof.
  simpl. unfold sample_suffix. simpl.
  induction (str_mul "  " indent +:+ "...") as [|a r IH]; [done|].
  rewrite string_app_cons. by rewrite IH.
Qed.

(** X13: the renderer never shows the ["note"] entry: removing it at every
    node of a descriptor leaves the printed text unchanged, so a truncated
    branch is printed as the three dots of its ["type"] alone. *)
Theorem X13_note_is_never_printed d indent :
  print_structure (strip_note d) indent = print_structure d indent
  /\ print_structure truncated indent = str_mul "  " indent +:+ "...".
Proof.
  split; [apply print_structure_strip_note | apply print_structure_truncated].
Qed.

(** ** Runs that pass over no key *)

Lemma skips_app_nil t1 t2 :
  skips (t1 ++ t2) = [] -> skips t1 = [] /\ skips t2 = [].
Proof. rewrite skips_app. apply app_eq_nil. Qed.

Section SkipFree.
Variable rec : value -> string -> paths -> descriptor * paths.
Variable rec_trace : value -> string -> paths -> list event.
Variable prec : value -> descriptor.

Lemma sample_loop_skip_free path xs i n seen :
  Forall (fun x => forall p s, skips (rec_trace x p s) = [] ->
                               (rec x p s).1 = prec x) xs ->
  skips (sample_trace rec rec_trace path xs i n seen) = [] ->
  (sample_loop rec path xs i n seen).1 = plain_sample_loop prec xs n.
Proof.
  intros Hxs. revert i n seen.
  induction Hxs as [|x xs Hx _ IH]; intros i [|n] seen; simpl; try done.
  change (skips (Item ?p :: ?t)) with (skips t).
  intros [Hsx Hsr]%skips_app_nil.
  specialize (Hx _ _ Hsx). specialize (IH _ _ _ Hsr).
  destruct (rec x _ seen) as [d seen1]. simpl in *.
  destruct (sample_loop rec path xs (S i) n seen1) as [ds seen2]. simpl in *.
  by rewrite Hx, IH.
Qed.

Lemma property_loop_skip_free path kvs props seen :
  Forall (fun kv => forall p s, skips (rec_trace kv.2 p s) = [] ->
                                (rec kv.2 p s).1 = prec kv.2) kvs ->
  skips (property_trace rec rec_trace path kvs seen) = [] ->
  (property_loop rec path kvs props seen).1
  = plain_property_loop prec kvs props.
Proof.
  intros Hkvs. revert props seen.
  induction Hkvs as [|[k v] kvs Hv _ IH]; intros props seen; simpl; [done|].
  simpl in Hv. destruct (decide (child_path path k ∈ seen)); [done|].
  change (skips (Key ?p :: ?t)) with (skips t).
  intros [Hsv Hsr]%skips_app_nil.
  specialize (Hv _ _ Hsv).
  destruct (rec v _ _) as [d seen1]. simpl in *. subst d. by apply IH.
Qed.
End SkipFree.

(** A run that passes over no key returns what the analysis without
    suppression returns, whatever its path and [seen_paths]. *)
Lemma skip_free_unsuppressed v :
  forall path depth max_depth seen,
    skips (trace v path depth max_depth seen) = [] ->
    (analyze_structure v path depth max_depth seen).1
    = analyze_unsuppressed v depth max_depth.
Proof.
  induction v as [| | | | |l IH|kvs IH|] using value_nested_ind;
    intros path depth max_depth seen;
    (destruct (Z_lt_le_dec max_depth depth) as [Hlt|Hle];
     [ rewrite analyze_structure_truncated by done;
       apply Z.gtb_lt in Hlt; simpl; by rewrite Hlt
     | rewrite analyze_structure_unfold, trace_unfold by done;
       pose proof (gtb_false_le _ _ Hle) as Hgt; simpl; rewrite Hgt ]);
    try done.
  - destruct (0 <? length l)%nat; [|done].
    intros Hsk.
    pose proof (sample_loop_skip_free
                  (fun x p s => analyze_structure x p (depth + 1) max_depth s)
                  (fun x p s => trace x p (depth + 1) max_depth s)
                  (fun x => analyze_unsuppressed x (depth + 1) max_depth)
                  path l 0 (Nat.min 3 (length l)) seen) as Heq.
    destruct (sample_loop _ _ _ _ _ _) as [samples seen']. simpl in Heq.
    rewrite <- Heq; [by destruct (all_same samples)| |done].
    eapply Forall_impl; [exact IH|]. intros x Hx p s. apply Hx.
  - intros Hsk.
    pose proof (property_loop_skip_free
                  (fun x p s => analyze_structure x p (depth + 1) max_depth s)
                  (fun x p s => trace x p (depth + 1) max_depth s)
                  (fun x => analyze_unsuppressed x (depth + 1) max_depth)
                  path kvs [] seen) as Heq.
    destruct (property_loop _ _ _ _ _) as [props seen']. simpl in Heq.
    rewrite <- Heq; [done| |done].
    eapply Forall_impl; [exact IH|]. intros x Hx p s. apply Hx.
Qed.

Lemma analyze_structure_unsuppressed v path depth max_depth seen :
  conforming v = true -> plain_keys v = true -> fresh_for path seen ->
  (analyze_structure v path depth max_depth seen).1
  = analyze_unsuppressed v depth max_depth.
Proof.
  intros [_ Huniq]%andb_true_iff Hplain Hfresh.
  apply skip_free_unsuppressed.
  by destruct (analyze_structure_no_skips v Huniq Hplain
                 path depth max_depth seen Hfresh) as [[Hsk _] _].
Qed.

(** X14: on a conforming JSON value with no ["."] and no ["["] in its keys
    the descriptor does not depend on where the run is started: any two
    calls with the same depth and budget, each on a path that nothing in
    its [seen_paths] extends, return the same descriptor, and that
    descriptor is the one the analysis without the suppression test
    gives. *)
Theorem X14_descriptor_independent_of_path
    v path path' depth max_depth seen seen' :
  conforming v = true -> plain_keys v = true ->
  fresh_for path seen -> fresh_for path' seen' ->
  (analyze_structure v path depth max_depth seen).1
  = (analyze_structure v path' depth max_depth seen').1
  /\ (analyze_structure v path depth max_depth seen).1
     = analyze_unsuppressed v depth max_depth.
Proof.
  intros Hc Hp Hf Hf'.
  rewrite !analyze_structure_unsuppressed by done. done.
Qed.

Lemma X14_descriptor_independent_of_path_witness :
  (analyze_structure sample_document "root" 0 5 ∅).1
  = (analyze_structure sample_document "root[0]" 0 5 ∅).1.
Proof.
  apply (X14_descriptor_independent_of_path sample_document
           "root" "root[0]" 0 5 ∅ ∅);
    [by vm_compute | by vm_compute | apply fresh_for_empty
    | apply fresh_for_empty].
Defined.

(** ** The report *)

(** X15: when [main] has loaded a non-empty array whose first element is a
    conforming value with plain keys and at most five levels, the
    descriptor it prints under "Detailed view of first item" (analysed
    afresh with [max_depth = 10]) is the descriptor the first pass computed
    for that element: the ["items"] descriptor itself when the array was
    found homogeneous, and the first entry of ["items"] when it was not.
    The detailed view then shows nothing the first listing did not. *)
Theorem X15_detailed_view_repeats_first_sample x l :
  conforming x = true -> plain_keys x = true -> (levels x <= 5)%nat ->
  let data := VList (x :: l) in
  (forall s0, d_items (analyze data 5) = Some (ItemsOne s0) ->
              s0 = analyze x 10)
  /\ (forall ds, d_items (analyze data 5) = Some (ItemsMany ds) ->
                 ds !! 0%nat = Some (analyze x 10))
  /\ main (Loaded data)
     = banner +:+ report data
       +:+ (nl +:+ str_mul "=" 60 +:+ nl)
       +:+ ("Detailed view of first item:" +:+ nl)
       +:+ (str_mul "-" 40 +:+ nl)
       +:+ print_structure (analyze x 10) 0.
Proof.
  intros Hc Hp Hlev data.
  set (rec := fun x p s => analyze_structure x p (0 + 1) 5 s).
  set (samples := (sample_loop rec "root" (x :: l) 0
                     (Nat.min 3 (length (x :: l))) ∅).1).
  assert (samples !! 0%nat = Some (analyze x 10)) as Hfirst.
  { unfold samples.
    rewrite (sample_loop_lookup rec "root" (x :: l) 0 _ ∅ 0 x);
      [|simpl; lia|done].
    simpl. f_equal. unfold rec, analyze.
    rewrite (analyze_structure_unsuppressed x (item_path "root" 0) (0 + 1) 5 ∅)
      by (done || apply fresh_for_empty).
    rewrite <- (analyze_structure_unsuppressed x "root" (0 + 1) 5 ∅)
      by (done || apply fresh_for_empty).
    f_equal. apply analyze_structure_budget; lia. }
  assert (analyze data 5
          = if all_same samples then
              set_items (ItemsOne (samples_0 samples))
                (set_length (length (x :: l)) (new_result "array"))
            else
              set_items (ItemsMany samples)
                (set_length (length (x :: l)) (new_result "array"))) as Hd.
  { unfold analyze, data. rewrite analyze_structure_unfold by lia. cbv zeta.
    change (0 <? length (x :: l))%nat with true. cbv iota.
    unfold samples, rec.
    destruct (sample_loop _ "root" (x :: l) 0 _ ∅) as [ss seen'].
    simpl. by destruct (all_same ss). }
  rewrite Hd. split; [|split].
  - intros s0. destruct (all_same samples); simpl; [|done].
    intros [= <-]. destruct samples as [|s1 rest]; [done|].
    simpl in *. congruence.
  - intros ds. destruct (all_same samples); simpl; [done|].
    by intros [= <-].
  - unfold main, detailed_view. simpl. by rewrite !string_app_assoc.
Qed.

Lemma X15_detailed_view_repeats_first_sample_witness :
  d_items (analyze (VList [sample_document; VInt 1]) 5)
  = Some (ItemsMany [analyze sample_document 10; new_result "integer"]).
Proof.
  destruct (X15_detailed_view_repeats_first_sample sample_document [VInt 1])
    as (_ & H & _); [by vm_compute | by vm_compute | simpl; lia|].
  assert (d_items (analyze (VList [sample_document; VInt 1]) 5)
          = Some (ItemsMany [analyze sample_document 5; new_result "integer"]))
    as Heq by (by vm_compute).
  rewrite Heq. specialize (H _ Heq). simpl in H. congruence.
Defined.

(** ** Edge cases of analysing and printing *)

(** X16: what is printed for the analysis of the smallest inputs.  An empty
    array prints as [Array[0] {] and [}] with nothing in between, an empty
    object as [Object {] and [}]; a non-empty array prints its true length
    in the header, however few elements were sampled; and with a negative
    [max_depth] the root itself is truncated, so every document prints as
    three dots. *)
Theorem X16_printing_edge_cases indent max_depth :
  (0 <= max_depth ->
   print_structure (analyze (VList []) max_depth) indent
   = str_mul "  " indent +:+ "Array[0] {" +:+ nl
     +:+ str_mul "  " indent +:+ "}" +:+ nl)
  /\ (0 <= max_depth ->
      print_structure (analyze (VDict []) max_depth) indent
      = str_mul "  " indent +:+ "Object {" +:+ nl
        +:+ str_mul "  " indent +:+ "}" +:+ nl)
  /\ (0 <= max_depth -> forall l, l <> [] ->
      exists body,
        print_structure (analyze (VList l) max_depth) indent
        = str_mul "  " indent +:+ "Array[" +:+ pretty (length l) +:+ "] {"
          +:+ nl +:+ body +:+ str_mul "  " indent +:+ "}" +:+ nl)
  /\ (max_depth < 0 -> forall v,
      print_structure (analyze v max_depth) indent
      = str_mul "  " indent +:+ "...").
Proof.
  split; [|split; [|split]].
  - intros Hm. unfold analyze. rewrite analyze_structure_unfold by done.
    simpl. by rewrite !string_app_assoc.
  - intros Hm. unfold analyze. rewrite analyze_structure_unfold by done.
    simpl. by rewrite !string_app_assoc.
  - intros Hm l Hne.
    assert (d_type (analyze (VList l) max_depth) = "array") as Ht
      by (unfold analyze; by rewrite analyze_structure_type).
    assert (d_length (analyze (VList l) max_depth) = Some (length l)) as Hl.
    { unfold analyze. rewrite analyze_structure_unfold by done. cbv zeta.
      destruct l as [|x l]; [done|].
      change (0 <? length (x :: l))%nat with true. cbv iota.
      destruct (sample_loop _ _ _ _ _ _) as [samples seen'].
      by destruct (all_same samples). }
    rewrite print_structure_array by done. rewrite Hl. simpl.
    eexists. reflexivity.
  - intros Hm v. unfold analyze. rewrite analyze_structure_truncated by done.
    apply print_structure_truncated.
Qed.

(** ** Kind names *)

(** X17: on JSON values the kind name tells the Python type apart: two
    values get the same name exactly when they are of the same type, the
    name is one of the seven fixed ones, and it is never the ["..."] used
    for truncation. *)
Theorem X17_kind_names_identify_types v w :
  is_json v = true -> is_json w = true ->
  (get_type_name v = get_type_name w <-> class_of v = class_of w)
  /\ get_type_name v ∈ ["null"; "boolean"; "integer"; "number"; "string";
                        "array"; "object"]
  /\ get_type_name v <> "...".
Proof.
  intros Hv Hw. split; [|split].
  - destruct v, w; try discriminate Hv; try discriminate Hw;
      split; intros H; try done; try discriminate H.
  - destruct v; try discriminate Hv; unfold get_type_name; simpl;
      apply (bool_decide_unpack _); by vm_compute.
  - destruct v; try discriminate Hv; discriminate.
Qed.

Lemma X17_kind_names_identify_types_witness :
  get_type_name (VInt 1) = get_type_name (VInt 2)
  /\ get_type_name (VBool true) <> get_type_name (VInt 1).
Proof.
  destruct (X17_kind_names_identify_types (VInt 1) (VInt 2)) as ([_ H1] & _);
    [done | done |].
  destruct (X17_kind_names_identify_types (VBool true) (VInt 1)) as ([H2 _] & _);
    [done | done |].
  split; [by apply H1|]. intros Heq. apply H2 in Heq. discriminate.
Defined.

Lemma X16_printing_edge_cases_witness :
  print_structure (analyze (VList []) 5) 0 = "Array[0] {" +:+ nl +:+ "}" +:+ nl
  /\ print_structure (analyze sample_document (-1)) 0 = "...".
Proof.
  destruct (X16_printing_edge_cases 0 5) as (H1 & _).
  destruct (X16_printing_edge_cases 0 (-1)) as (_ & _ & _ & H4).
  split; [apply H1; lia | apply H4; lia].
Defined.
